(** * node_prov.py: a BlueZ mesh node application, embedded in Rocq

    The development follows [src/node_prov.py] top to bottom: the Python
    primitives the script relies on ([int(s, 16)], [str.split],
    [threading.Timer]), the module globals, [set_token], the
    [ModTimer] class, the [Model] / [MyVendor] / [Element] classes, and the
    D-Bus callbacks.  Handlers run to completion on the GLib main loop, so
    every function is a state transformer; a Python exception is an
    explicit [Raised] outcome and the mutations made before it persist.
    The function of a timer thread is taken as one such step as well
    ([Timer_run]).  That is an idealisation: the script runs it on a
    [threading.Timer] thread next to the main loop, so a handler can run
    while [_timeout_cb] holds [busy] up.  A property that depends on
    [busy] therefore names its value; none takes it to be down because a
    step has ended.

    Conventions.
    - A Python [str] is a Rocq [string] whose characters are the code
      points U+0000..U+00FF.
    - [print] calls and the colouring helpers are omitted: they touch no
      state that the script reads back.  The one exception is the trace
      of [process_message], whose bodies do nothing but print or return.
    - [numpy.uint64] and [dbus.UInt64] values are integers in [Z]. *)

From Stdlib Require Import ZArith String Ascii HexString List Bool Lia QArith.
From stdpp Require Import base list relations.
Import ListNotations.

Local Open Scope string_scope.
Local Open Scope list_scope.
Local Open Scope Z_scope.

(** ** Python exceptions and outcomes *)

Inductive exn : Type :=
| AttributeError
| IndexError
| TypeError
| ValueError
| FileNotFoundError.

(** How a statement sequence ends: it falls through / returns, or it
    raises. *)
Inductive outcome : Type :=
| Return
| Raised (e : exn).

(** The value of an expression that may raise. *)
Inductive Res (A : Type) : Type :=
| Ok (a : A)
| Raise (e : exn).
Arguments Ok {A} a.
Arguments Raise {A} e.

(** ** [int(s, base)] on strings

    CPython's [PyLong_FromUnicodeObject] followed by [PyLong_FromString]:
    surrounding whitespace is skipped, one sign is accepted, for base 16 an
    optional [0x]/[0X] prefix (and one underscore right after it), then
    digits with single underscores between them.  [None] is [ValueError]. *)

(** Whitespace as [int] sees it: [Py_ISSPACE] on ASCII, and NEL / NBSP,
    which the Unicode-to-ASCII pass turns into a space. *)
Definition Py_ISSPACE (c : ascii) : bool :=
  let n := Z.of_N (N_of_ascii c) in
  ((9 <=? n) && (n <=? 13)) || (n =? 32) || (n =? 133) || (n =? 160).

(** [_PyLong_DigitValue]: 0-9, a-z, A-Z; everything else is no digit. *)
Definition digit_value (c : ascii) : option Z :=
  let n := Z.of_N (N_of_ascii c) in
  if (48 <=? n) && (n <=? 57) then Some (n - 48)
  else if (97 <=? n) && (n <=? 122) then Some (n - 87)
  else if (65 <=? n) && (n <=? 90) then Some (n - 55)
  else None.

Fixpoint skip_space (p : list ascii) : list ascii :=
  match p with
  | c :: p' => if Py_ISSPACE c then skip_space p' else p
  | [] => []
  end.

(** The digit loop.  [prev_us] is [prev == '_'].  The result is the
    accumulated value, the number of digits and the unread rest; [None]
    is a doubled or trailing underscore. *)
Fixpoint scan_digits (base : Z) (p : list ascii) (prev_us : bool)
    (acc : Z) (digits : nat) : option (Z * nat * list ascii) :=
  let stop := if prev_us then None else Some (acc, digits, p) in
  match p with
  | c :: p' =>
      if Ascii.eqb c "_"
      then if prev_us then None else scan_digits base p' true acc digits
      else match digit_value c with
           | Some d =>
               if d <? base
               then scan_digits base p' false (acc * base + d) (S digits)
               else stop
           | None => stop
           end
  | [] => stop
  end.

Definition strip_sign (p : list ascii) : Z * list ascii :=
  match p with
  | c :: p' =>
      if Ascii.eqb c "+" then (1, p')
      else if Ascii.eqb c "-" then (-1, p')
      else (1, p)
  | [] => (1, [])
  end.

Definition is_prefix_letter (base : Z) (c : ascii) : bool :=
  ((base =? 16) && (Ascii.eqb c "x" || Ascii.eqb c "X"))
  || ((base =? 8) && (Ascii.eqb c "o" || Ascii.eqb c "O"))
  || ((base =? 2) && (Ascii.eqb c "b" || Ascii.eqb c "B")).

Definition strip_prefix (base : Z) (p : list ascii) : list ascii :=
  match p with
  | c0 :: c1 :: p' =>
      if Ascii.eqb c0 "0" && is_prefix_letter base c1
      then match p' with
           | u :: p'' => if Ascii.eqb u "_" then p'' else p'
           | [] => []
           end
      else p
  | _ => p
  end.

Definition int (s : string) (base : Z) : option Z :=
  let p0 := skip_space (list_ascii_of_string s) in
  let '(sign, p1) := strip_sign p0 in
  let p2 := strip_prefix base p1 in
  match p2 with
  | c :: _ => if Ascii.eqb c "_" then None else
      match scan_digits base p2 false 0 0 with
      | Some (v, digits, rest) =>
          match digits, skip_space rest with
          | S _, [] => Some (sign * v)
          | _, _ => None
          end
      | None => None
      end
  | [] => None
  end.

(** Whether a string consists of hexadecimal digits only. *)
Definition hex_digits_only (s : string) : bool :=
  forallb (fun c => match digit_value c with
                    | Some d => d <? 16
                    | None => false
                    end)
          (list_ascii_of_string s).

(** [numpy.uint64(n)] for a Python integer of magnitude below 2^64 (all
    that a 16-character literal can denote): NumPy 1.x wraps a negative
    argument around. *)
Definition numpy_uint64 (n : Z) : Z := n mod 2 ^ 64.

(** ** Other string primitives *)

(** [s.split(sep)] for a one-character separator: empty fields are kept. *)
Fixpoint split (sep : ascii) (s : string) : list string :=
  match s with
  | EmptyString => [EmptyString]
  | String c s' =>
      if Ascii.eqb c sep then EmptyString :: split sep s'
      else match split sep s' with
           | w :: ws => String c w :: ws
           | [] => [String c EmptyString]
           end
  end.

(** [sub in s]. *)
Fixpoint contains (sub s : string) : bool :=
  String.prefix sub s ||
  match s with
  | String _ s' => contains sub s'
  | EmptyString => false
  end.

(** [s[0:-1]]. *)
Definition drop_last (s : string) : string :=
  String.substring 0 (String.length s - 1) s.

(** [l[i]], raising [IndexError] out of range. *)
Definition getitem {A} (l : list A) (i : nat) : Res A :=
  match l !! i with
  | Some x => Ok x
  | None => Raise IndexError
  end.

(** A [dict] with string keys in insertion order; [d[k] = v]. *)
Definition dict : Type := list (string * string).

Fixpoint dict_set (k v : string) (d : dict) : dict :=
  match d with
  | [] => [(k, v)]
  | (k', v') :: d' =>
      if String.eqb k k' then (k, v) :: d' else (k', v') :: dict_set k v d'
  end.


(** [format(n, '02x')]. *)
Definition format_02x (n : Z) : string :=
  match n with
  | Z0 => "00"
  | Zpos p =>
      let h := HexString.Raw.of_pos p EmptyString in
      if (String.length h <? 2)%nat then String "0" h else h
  | Zneg p => String "-" (HexString.Raw.of_pos p EmptyString)
  end.

(** ** Module globals

    [app] is kept apart (see [World] below).  [mainloop.quit()] is the
    flag [loop_quit]; [node.Publish] calls are collected in [published];
    [scan_txt] is the content of the file [scan.txt] as [readlines]
    returns it, [None] when the file cannot be opened or read (the
    exception raised then is represented by [FileNotFoundError], its
    commonest case).  [mesh_net] holds
    what [mesh_net[2]] evaluates to - subscripting the D-Bus proxy is the
    binding's business and is kept as data. *)

(** The state blob of the vendor model: the initial integer, or
    [json.dumps(scanned).encode('utf-8')], kept as the dictionary that was
    dumped. *)
Inductive VState : Type :=
| StateInt (n : Z)
| StateBytes (d : dict).

(** One [node.Publish(path, model_id, opts, data)] call; [data] is
    [struct.pack('>H<n>s', tag, blob)]. *)
Record Publication : Type := mkPublication {
  pub_path : option string;
  pub_model : Z;
  pub_tag : Z;
  pub_blob : dict
}.

Record Globals : Type := mkGlobals {
  token : option Z;
  have_token : bool;
  attached : bool;
  input_error : bool;
  node : option string;
  node_mgr : option string;
  mesh_net : option (Res string);
  scanned : dict;
  loop_quit : bool;
  scan_txt : option (list string);
  published : list Publication
}.

Definition set_token_field (v : option Z) (g : Globals) : Globals :=
  mkGlobals v (have_token g) (attached g) (input_error g) (node g)
    (node_mgr g) (mesh_net g) (scanned g) (loop_quit g) (scan_txt g)
    (published g).

Definition set_have_token (v : bool) (g : Globals) : Globals :=
  mkGlobals (token g) v (attached g) (input_error g) (node g)
    (node_mgr g) (mesh_net g) (scanned g) (loop_quit g) (scan_txt g)
    (published g).

Definition set_attached (v : bool) (g : Globals) : Globals :=
  mkGlobals (token g) (have_token g) v (input_error g) (node g)
    (node_mgr g) (mesh_net g) (scanned g) (loop_quit g) (scan_txt g)
    (published g).

Definition set_input_error (v : bool) (g : Globals) : Globals :=
  mkGlobals (token g) (have_token g) (attached g) v (node g)
    (node_mgr g) (mesh_net g) (scanned g) (loop_quit g) (scan_txt g)
    (published g).

Definition set_node (v : option string) (g : Globals) : Globals :=
  mkGlobals (token g) (have_token g) (attached g) (input_error g) v
    (node_mgr g) (mesh_net g) (scanned g) (loop_quit g) (scan_txt g)
    (published g).

Definition set_node_mgr (v : option string) (g : Globals) : Globals :=
  mkGlobals (token g) (have_token g) (attached g) (input_error g) (node g)
    v (mesh_net g) (scanned g) (loop_quit g) (scan_txt g) (published g).

Definition set_mesh_net (v : option (Res string)) (g : Globals) : Globals :=
  mkGlobals (token g) (have_token g) (attached g) (input_error g) (node g)
    (node_mgr g) v (scanned g) (loop_quit g) (scan_txt g) (published g).

Definition set_scanned (v : dict) (g : Globals) : Globals :=
  mkGlobals (token g) (have_token g) (attached g) (input_error g) (node g)
    (node_mgr g) (mesh_net g) v (loop_quit g) (scan_txt g) (published g).

Definition set_published (v : list Publication) (g : Globals) : Globals :=
  mkGlobals (token g) (have_token g) (attached g) (input_error g) (node g)
    (node_mgr g) (mesh_net g) (scanned g) (loop_quit g) (scan_txt g) v.

(** [mainloop.quit()]. *)
Definition mainloop_quit (g : Globals) : Globals :=
  mkGlobals (token g) (have_token g) (attached g) (input_error g) (node g)
    (node_mgr g) (mesh_net g) (scanned g) true (scan_txt g) (published g).

(** The globals as the module body leaves them, for a given [scan.txt]. *)
Definition initial_globals (scan : option (list string)) : Globals :=
  mkGlobals None false false false None None None [] false scan [].

(** ** Input validation *)

Definition raise_error (g : Globals) : Globals := set_input_error true g.

Definition clear_error (g : Globals) : Globals := set_input_error false g.

Definition is_error (g : Globals) : bool := input_error g.

Definition set_token (str_value : string) (g : Globals) : Globals :=
  if negb (String.length str_value =? 16)%nat then raise_error g
  else
    match int str_value 16 with
    | None => raise_error g
    | Some input_number =>
        set_have_token true
          (set_token_field (Some (numpy_uint64 input_number)) g)
    end.

(** ** [threading.Timer] and [ModTimer]

    Every [Timer] object ever created sits in one list, and its position
    is its identity.  A timer is [Waiting] from [start()] until its
    interval elapses or [cancel()] sets its [finished] event; [Done] once
    its function has run (or raised). *)

Inductive thread_status : Type :=
| Waiting
| Cancelled
| Done.

Record Timer (Tid : Type) : Type := mkTimer {
  interval : option Q;
  target : Tid;
  status : thread_status
}.
Arguments mkTimer {Tid} _ _ _.
Arguments interval {Tid} _.
Arguments target {Tid} _.
Arguments status {Tid} _.

Record ModTimer (F : Type) : Type := mkModTimer {
  seconds : option Q;
  func : option F;
  thread : option nat;
  busy : bool
}.
Arguments mkModTimer {F} _ _ _ _.
Arguments seconds {F} _.
Arguments func {F} _.
Arguments thread {F} _.
Arguments busy {F} _.

Definition is_waiting {Tid} (t : Timer Tid) : bool :=
  match status t with
  | Waiting => true
  | _ => false
  end.

(** The timers that will still fire. *)
Definition armed {Tid} (ths : list (Timer Tid)) : list (Timer Tid) :=
  List.filter is_waiting ths.

(** [Timer.cancel()]: sets [finished]; a timer that has run is unaffected. *)
Definition Timer_cancel {Tid} (t : Timer Tid) : Timer Tid :=
  match status t with
  | Waiting => mkTimer (interval t) (target t) Cancelled
  | _ => t
  end.

Definition Timer_finish {Tid} (t : Timer Tid) : Timer Tid :=
  mkTimer (interval t) (target t) Done.

Section ModTimerClass.
(** [Tid] names the [ModTimer] whose bound [_timeout_cb] a [Timer]
    carries; [F] is the type of callbacks; calling one acts on [Env]
    and may raise.  No callback of this program touches the scheduler
    it is run by, so [Env] is disjoint from the scheduler's fields. *)
Context {Tid F Env : Type}.
Variable call : F -> Env -> Env * outcome.

Definition ModTimer___init__ : ModTimer F :=
  mkModTimer None None None false.

Definition set_busy (b : bool) (self : ModTimer F) : ModTimer F :=
  mkModTimer (seconds self) (func self) (thread self) b.

Definition set_thread (t : option nat) (self : ModTimer F) : ModTimer F :=
  mkModTimer (seconds self) (func self) t (busy self).

Definition _schedule_timer (self_id : Tid) (self : ModTimer F)
    (ths : list (Timer Tid)) : ModTimer F * list (Timer Tid) :=
  (set_thread (Some (length ths)) self,
   ths ++ [mkTimer (seconds self) self_id Waiting]).

Definition start (self_id : Tid) (secs : Q) (f : F) (self : ModTimer F)
    (ths : list (Timer Tid)) : ModTimer F * list (Timer Tid) :=
  let self1 := mkModTimer (Some secs) (Some f) (thread self) (busy self) in
  if negb (busy self1) then _schedule_timer self_id self1 ths
  else (self1, ths).

Definition cancel (self : ModTimer F) (ths : list (Timer Tid))
    : ModTimer F * list (Timer Tid) :=
  match thread self with
  | Some i => (set_thread None self, alter Timer_cancel i ths)
  | None => (self, ths)
  end.

Definition _timeout_cb (self_id : Tid) (self : ModTimer F)
    (ths : list (Timer Tid)) (env : Env)
    : ModTimer F * list (Timer Tid) * Env * outcome :=
  match func self with
  | None => (self, ths, env, Raised TypeError)
  | Some f =>
      let '(env1, o) := call f env in
      match o with
      | Raised e => (self, ths, env1, Raised e)
      | Return =>
          let self1 := set_busy true self in
          let '(self2, ths2) := _schedule_timer self_id self1 ths in
          (set_busy false self2, ths2, env1, Return)
      end
  end.
End ModTimerClass.

(** ** Models

    Objects are nested by value ([app.elements] holds the elements, an
    element its models, a vendor model its two schedulers); lists only
    grow by [append], so a model is referred to by the pair (position of
    its element in [app.elements], position in [el.models]).  A running
    [Timer] refers to the scheduler whose [_timeout_cb] it was given by
    that pair and the attribute holding the scheduler. *)

Definition VENDOR_ID_NONE : Z := 0xffff.

Definition ModelRef : Type := (nat * nat)%type.

Inductive Slot : Type :=
| slot_timer
| slot_pub_timer
| slot_t_timer.

Definition TimerId : Type := (ModelRef * Slot)%type.

(** The only callable handed to a scheduler is the bound method
    [self.publish]. *)
Inductive Callback : Type :=
| publish_of (r : ModelRef).

(** The attributes [MyVendor.__init__] adds to those of [Model]. *)
Record MyVendorFields : Type := mkMyVendorFields {
  state : VState;
  pub_timer : ModTimer Callback;
  t_timer : ModTimer Callback
}.

(** [my_vendor] is [Some] exactly for instances of [MyVendor]. *)
Record Model : Type := mkModel {
  cmd_ops : list Z;
  model_id : Z;
  vendor : Z;
  bindings : list Z;
  pub_period : Z;
  pub_id : Z;
  path : option string;
  timer : option (ModTimer Callback);
  my_vendor : option MyVendorFields
}.

Definition Model___init__ (id : Z) : Model :=
  mkModel [] id VENDOR_ID_NONE [] 0 0 None None None.

Definition MyVendor___init__ (id : Z) : Model :=
  mkModel [0x8201; 0x8202; 0x8203; 0x8204] id 0x05F1 [] 0 0 None None
    (Some (mkMyVendorFields (StateInt 0)
             ModTimer___init__ ModTimer___init__)).

Definition set_path (p : string) (self : Model) : Model :=
  mkModel (cmd_ops self) (model_id self) (vendor self) (bindings self)
    (pub_period self) (pub_id self) (Some p) (timer self) (my_vendor self).

Definition set_bindings (b : list Z) (self : Model) : Model :=
  mkModel (cmd_ops self) (model_id self) (vendor self) b
    (pub_period self) (pub_id self) (path self) (timer self)
    (my_vendor self).

Definition set_pub_period (p : Z) (self : Model) : Model :=
  mkModel (cmd_ops self) (model_id self) (vendor self) (bindings self)
    p (pub_id self) (path self) (timer self) (my_vendor self).

Definition set_timer (t : option (ModTimer Callback)) (self : Model)
    : Model :=
  mkModel (cmd_ops self) (model_id self) (vendor self) (bindings self)
    (pub_period self) (pub_id self) (path self) t (my_vendor self).

Definition set_my_vendor (mv : MyVendorFields) (self : Model) : Model :=
  mkModel (cmd_ops self) (model_id self) (vendor self) (bindings self)
    (pub_period self) (pub_id self) (path self) (timer self) (Some mv).

Definition get_id (self : Model) : Z := model_id self.

Definition get_vendor (self : Model) : Z := vendor self.

(** A model configuration after [unwrap]: the three keys [set_config]
    looks at, each present or not. *)
Inductive Subscription : Type :=
| SubAddress (a : Z)
| SubLabel (label : list Z).

Record Config : Type := mkConfig {
  Bindings : option (list Z);
  PublicationPeriod : option Z;
  Subscriptions : option (list Subscription)
}.

(** [uuid.UUID(bytes=...)] wants exactly 16 bytes. *)
Fixpoint print_subscriptions (subscriptions : list Subscription) : outcome :=
  match subscriptions with
  | [] => Return
  | SubAddress _ :: rest => print_subscriptions rest
  | SubLabel label :: rest =>
      if (length label =? 16)%nat then print_subscriptions rest
      else Raised ValueError
  end.

(** Continue with the value of [r], or stop with its exception, keeping
    the state [s] reached so far. *)
Definition try_ {A S : Type} (r : Res A) (s : S) (k : A -> S * outcome)
    : S * outcome :=
  match r with
  | Ok a => k a
  | Raise e => (s, Raised e)
  end.

(** The inner loop of [MyVendor.set_publication]: [for test in lines]. *)
Fixpoint scan_chg (tests : list string) (line : string) (sc : dict)
    : dict * outcome :=
  match tests with
  | [] => (sc, Return)
  | test :: rest =>
      if contains "[CHG]" test then
        try_ (getitem (split " " test) 2) sc (fun t2 =>
        try_ (getitem (split " " line) 2) sc (fun l2 =>
          if String.eqb t2 l2 then
            try_ (getitem (split " " test) 3) sc (fun t3 =>
            try_ (getitem (split " " line) 4) sc (fun l4 =>
              scan_chg rest line (dict_set (drop_last l4) (drop_last t3) sc)))
          else scan_chg rest line sc))
      else scan_chg rest line sc
  end.

(** The outer loop: [for line in lines]. *)
Fixpoint scan_new (lines rest : list string) (sc : dict) : dict * outcome :=
  match rest with
  | [] => (sc, Return)
  | line :: rest' =>
      if contains "[NEW]" line then
        try_ (getitem (split " " line) 3) sc (fun l3 =>
          if negb (String.eqb l3 "undefined") then
            try_ (getitem (split " " line) 4) sc (fun l4 =>
              scan_new lines rest' (dict_set (drop_last l4) l3 sc))
          else
            match scan_chg lines line sc with
            | (sc1, Return) => scan_new lines rest' sc1
            | (sc1, Raised e) => (sc1, Raised e)
            end)
      else scan_new lines rest' sc
  end.

Definition Model_set_publication (period : Z) (self : Model) : Model :=
  set_pub_period period self.

Definition MyVendor_set_publication (self_ref : ModelRef) (self : Model)
    (mv : MyVendorFields) (period : Z)
    (ths : list (Timer TimerId)) (g : Globals)
    : Model * list (Timer TimerId) * Globals * outcome :=
  let self := set_pub_period period self in
  if period =? 0 then
    let '(pt, ths1) := cancel (pub_timer mv) ths in
    (set_my_vendor (mkMyVendorFields (state mv) pt (t_timer mv)) self,
     ths1, g, Return)
  else if period <? 1000 then (self, ths, g, Return)
  else
    match scan_txt g with
    | None => (self, ths, g, Raised FileNotFoundError)
    | Some [] => (self, ths, mainloop_quit g, Return)
    | Some lines =>
        match scan_new lines lines (scanned g) with
        | (sc, Raised e) => (self, ths, set_scanned sc g, Raised e)
        | (sc, Return) =>
            let g1 := set_scanned sc g in
            match sc with
            | [] => (self, ths, mainloop_quit g1, Return)
            | _ :: _ =>
                let '(pt, ths1) :=
                  start (self_ref, slot_pub_timer) (Qmake period 1000)
                    (publish_of self_ref) (pub_timer mv) ths in
                (set_my_vendor (mkMyVendorFields (StateBytes sc) pt
                                  (t_timer mv)) self,
                 ths1, g1, Return)
            end
        end
    end.

(** Method dispatch on the class of [self]. *)
Definition set_publication (self_ref : ModelRef) (self : Model) (period : Z)
    (ths : list (Timer TimerId)) (g : Globals)
    : Model * list (Timer TimerId) * Globals * outcome :=
  match my_vendor self with
  | None => (Model_set_publication period self, ths, g, Return)
  | Some mv => MyVendor_set_publication self_ref self mv period ths g
  end.

Definition set_config (self_ref : ModelRef) (self : Model) (config : Config)
    (ths : list (Timer TimerId)) (g : Globals)
    : Model * list (Timer TimerId) * Globals * outcome :=
  let self1 :=
    match Bindings config with
    | Some b => set_bindings b self
    | None => self
    end in
  let '(self2, ths2, g2, o) :=
    match PublicationPeriod config with
    | Some period => set_publication self_ref self1 period ths g
    | None => (self1, ths, g, Return)
    end in
  match o with
  | Raised e => (self2, ths2, g2, Raised e)
  | Return =>
      match Subscriptions config with
      | Some subs => (self2, ths2, g2, print_subscriptions subs)
      | None => (self2, ths2, g2, Return)
      end
  end.

(** [Model.send_publication]: the call goes through the global [node]. *)
Definition send_publication (self : Model) (blob : dict) (g : Globals)
    : Globals * outcome :=
  match node g with
  | None => (g, Raised AttributeError)
  | Some _ =>
      (set_published
         (published g ++ [mkPublication (path self) (model_id self) 0xFFFF blob])
         g, Return)
  end.

(** [MyVendor.publish]; [len(self.state)] needs the state to be bytes. *)
Definition publish (self : Model) (g : Globals) : Globals * outcome :=
  match my_vendor self with
  | None => (g, Raised AttributeError)
  | Some mv =>
      match state mv with
      | StateInt _ => (g, Raised TypeError)
      | StateBytes d => send_publication self d g
      end
  end.

(** The destination of a message: an address or a label. *)
Inductive Dest : Type :=
| DestAddress (a : Z)
| DestLabel (label : list Z).

(** The record a body of [process_message] leaves of its own run: the
    object it was called on, its arguments in the callee's order (source,
    dest, key, data), and what it printed.  The bodies do nothing else,
    so an entry of the trace is all that shows a call was made; it is
    entered by the body that runs, not by the caller. *)
Record Invocation : Type := mkInvocation {
  inv_self : Model;
  inv_source : Z;
  inv_dest : Dest;
  inv_key : Z;
  inv_data : list Z;
  inv_printed : list string
}.

(** [Model.process_message]: returns at once. *)
Definition Model_process_message (self : Model) (source : Z) (dest : Dest)
    (key : Z) (data : list Z) (calls : list Invocation)
    : Model * list Invocation :=
  (self, calls ++ [mkInvocation self source dest key data []]).

(** [MyVendor.process_message]: prints a line and returns. *)
Definition MyVendor_process_message (self : Model) (source : Z) (dest : Dest)
    (key : Z) (data : list Z) (calls : list Invocation)
    : Model * list Invocation :=
  (self, calls ++ [mkInvocation self source dest key data
                     ["message received"]]).

(** Method dispatch on the class of [self]. *)
Definition process_message (self : Model) (source : Z) (dest : Dest)
    (key : Z) (data : list Z) (calls : list Invocation)
    : Model * list Invocation :=
  match my_vendor self with
  | None => Model_process_message self source dest key data calls
  | Some _ => MyVendor_process_message self source dest key data calls
  end.

(** ** Elements *)

Record Element : Type := mkElement {
  Element_path : string;
  models : list Model;
  index : Z
}.

Definition PATH_BASE : string := "/example/ele".

Definition Element___init__ (idx : Z) : Element :=
  mkElement (String.append PATH_BASE (format_02x idx)) [] idx.

Definition set_models (ms : list Model) (self : Element) : Element :=
  mkElement (Element_path self) ms (index self).

Definition add_model (model : Model) (self : Element) : Element :=
  set_models (models self ++ [set_path (Element_path self) model]) self.

Definition get_index (self : Element) : Z := index self.

(** [update_model_config]: the first model with that id gets the
    configuration; [pos] is the position of the head of [ms]. *)
Fixpoint update_model_config_loop (el_pos pos : nat) (ms : list Model)
    (id : Z) (config : Config) (ths : list (Timer TimerId)) (g : Globals)
    : list Model * list (Timer TimerId) * Globals * outcome :=
  match ms with
  | [] => ([], ths, g, Return)
  | model :: rest =>
      if id =? get_id model then
        let '(model1, ths1, g1, o) :=
          set_config (el_pos, pos) model config ths g in
        (model1 :: rest, ths1, g1, o)
      else
        let '(rest1, ths1, g1, o) :=
          update_model_config_loop el_pos (S pos) rest id config ths g in
        (model :: rest1, ths1, g1, o)
  end.

Definition update_model_config (el_pos : nat) (self : Element) (id : Z)
    (config : Config) (ths : list (Timer TimerId)) (g : Globals)
    : Element * list (Timer TimerId) * Globals * outcome :=
  let '(ms, ths1, g1, o) :=
    update_model_config_loop el_pos 0 (models self) id config ths g in
  (set_models ms self, ths1, g1, o).

Fixpoint set_model_config (el_pos : nat) (self : Element)
    (configs : list (Z * Config)) (ths : list (Timer TimerId)) (g : Globals)
    : Element * list (Timer TimerId) * Globals * outcome :=
  match configs with
  | [] => (self, ths, g, Return)
  | (mod_id, config) :: rest =>
      match update_model_config el_pos self mod_id config ths g with
      | (self1, ths1, g1, Return) => set_model_config el_pos self1 rest ths1 g1
      | (self1, ths1, g1, Raised e) => (self1, ths1, g1, Raised e)
      end
  end.

(** [MessageReceived]: the loop over [self.models], each model's
    [process_message] being called with the destination and the key
    swapped into the callee's order.  [calls] is the trace so far. *)
Fixpoint MessageReceived_loop (ms : list Model)
    (source key : Z) (dest : Dest) (data : list Z) (calls : list Invocation)
    : list Model * list Invocation :=
  match ms with
  | [] => ([], calls)
  | model :: rest =>
      let '(model1, calls1) :=
        process_message model source dest key data calls in
      let '(rest1, calls2) :=
        MessageReceived_loop rest source key dest data calls1 in
      (model1 :: rest1, calls2)
  end.

Definition MessageReceived (self : Element) (source key : Z) (dest : Dest)
    (data : list Z) (calls : list Invocation) : Element * list Invocation :=
  let '(ms, calls1) :=
    MessageReceived_loop (models self) source key dest data calls in
  (set_models ms self, calls1).

(** ** The application and the callbacks *)

(** [elements] is [app.elements]; [threads] is every [Timer] created so
    far. *)
Record World : Type := mkWorld {
  elements : list Element;
  threads : list (Timer TimerId);
  glob : Globals
}.

Definition set_glob (g : Globals) (w : World) : World :=
  mkWorld (elements w) (threads w) g.

Definition add_element (element : Element) (w : World) : World :=
  mkWorld (elements w ++ [element]) (threads w) (glob w).

(** [Application.get_element]: the first element with that index, with
    its position; falling off the loop returns [None]. *)
Fixpoint get_element_from (pos : nat) (els : list Element) (idx : Z)
    : option (nat * Element) :=
  match els with
  | [] => None
  | ele :: rest =>
      if get_index ele =? idx then Some (pos, ele)
      else get_element_from (S pos) rest idx
  end.

Definition get_element (els : list Element) (idx : Z)
    : option (nat * Element) :=
  get_element_from 0 els idx.

(** [struct.unpack('b', x)[0]] on a one-byte [bytes]: a signed char. *)
Definition unpack_b (x : Byte.byte) : Z :=
  let n := Z.of_N (Byte.to_N x) in
  if n <? 128 then n else n - 256.

(** The loop of [attach_app_cb] over the unwrapped [dict_array]; each
    entry is an element index byte and the configurations of its models. *)
Fixpoint attach_app_cb_loop (els : list (Byte.byte * list (Z * Config)))
    (w : World) : World * outcome :=
  match els with
  | [] => (w, Return)
  | (b, mods) :: rest =>
      let idx := unpack_b b in
      match get_element (elements w) idx with
      | None => (w, Raised AttributeError)
      | Some (pos, element) =>
          match set_model_config pos element mods (threads w) (glob w) with
          | (element1, ths1, g1, o) =>
              let w1 := mkWorld (<[pos := element1]> (elements w)) ths1 g1 in
              match o with
              | Return => attach_app_cb_loop rest w1
              | Raised e => (w1, Raised e)
              end
          end
      end
  end.

Definition attach_app_cb (node_path : string)
    (dict_array : list (Byte.byte * list (Z * Config))) (w : World)
    : World * outcome :=
  let g := set_attached true (glob w) in
  let g := set_node_mgr (Some node_path) g in
  let g := set_node (Some node_path) g in
  attach_app_cb_loop dict_array (set_glob g w).

Definition remove_node_cb (w : World) : World :=
  set_glob (set_have_token false (set_attached false (glob w))) w.

Definition JoinComplete (value : Z) (w : World) : World :=
  set_glob (set_have_token true (set_token_field (Some value) (glob w))) w.

(** [Element.UpdateModelConfiguration], on the element at [el_pos]. *)
Definition UpdateModelConfiguration (el_pos : nat) (id : Z) (config : Config)
    (w : World) : World * outcome :=
  match elements w !! el_pos with
  | None => (w, Return)
  | Some element =>
      let '(element1, ths1, g1, o) :=
        update_model_config el_pos element id config (threads w) (glob w) in
      (mkWorld (<[el_pos := element1]> (elements w)) ths1 g1, o)
  end.

(** [app_exit]: the two nested loops, then [mainloop.quit()]. *)
Fixpoint app_exit_models (ms : list Model) (ths : list (Timer TimerId))
    : list Model * list (Timer TimerId) :=
  match ms with
  | [] => ([], ths)
  | model :: rest =>
      let '(model1, ths1) :=
        match timer model with
        | Some t =>
            let '(t1, ths1) := cancel t ths in
            (set_timer (Some t1) model, ths1)
        | None => (model, ths)
        end in
      let '(rest1, ths2) := app_exit_models rest ths1 in
      (model1 :: rest1, ths2)
  end.

Fixpoint app_exit_elements (els : list Element) (ths : list (Timer TimerId))
    : list Element * list (Timer TimerId) :=
  match els with
  | [] => ([], ths)
  | el :: rest =>
      let '(ms, ths1) := app_exit_models (models el) ths in
      let '(rest1, ths2) := app_exit_elements rest ths1 in
      (set_models ms el :: rest1, ths2)
  end.

Definition app_exit (w : World) : World :=
  let '(els, ths) := app_exit_elements (elements w) (threads w) in
  mkWorld els ths (mainloop_quit (glob w)).

Definition interfaces_removed_cb (object_path : string) (w : World)
    : World * outcome :=
  match mesh_net (glob w) with
  | None => (w, Return)
  | Some (Raise e) => (w, Raised e)
  | Some (Ok subject) =>
      if String.eqb object_path subject then (app_exit w, Return)
      else (w, Return)
  end.

(** ** Timer threads at work

    [Timer.run] for the timer at position [i]: nothing happens unless it
    is still waiting (a wait without interval never ends); otherwise its
    function, the [_timeout_cb] of the scheduler it names, runs to
    completion and the thread ends. *)

Definition timer_of_slot (s : Slot) (m : Model) : option (ModTimer Callback) :=
  match s with
  | slot_timer => timer m
  | slot_pub_timer => option_map pub_timer (my_vendor m)
  | slot_t_timer => option_map t_timer (my_vendor m)
  end.

Definition put_slot (s : Slot) (t : ModTimer Callback) (m : Model) : Model :=
  match s, my_vendor m with
  | slot_timer, _ => set_timer (Some t) m
  | slot_pub_timer, Some mv =>
      set_my_vendor (mkMyVendorFields (state mv) t (t_timer mv)) m
  | slot_t_timer, Some mv =>
      set_my_vendor (mkMyVendorFields (state mv) (pub_timer mv) t) m
  | _, None => m
  end.

Definition model_at (r : ModelRef) (els : list Element) : option Model :=
  match els !! fst r with
  | Some el => models el !! snd r
  | None => None
  end.

Definition timer_at (id : TimerId) (els : list Element)
    : option (ModTimer Callback) :=
  match model_at (fst id) els with
  | Some m => timer_of_slot (snd id) m
  | None => None
  end.

Definition put_timer (id : TimerId) (t : ModTimer Callback)
    (els : list Element) : list Element :=
  alter (fun el =>
           set_models (alter (put_slot (snd id) t) (snd (fst id)) (models el)) el)
        (fst (fst id)) els.

(** Calling a stored callback: the bound method finds its model in the
    registry.  A reference to no model does not arise, since references
    are only made for registered models. *)
Definition run_callback (els : list Element) (f : Callback) (g : Globals)
    : Globals * outcome :=
  match f with
  | publish_of r =>
      match model_at r els with
      | Some m => publish m g
      | None => (g, Raised AttributeError)
      end
  end.

Definition Timer_run (i : nat) (w : World) : World * outcome :=
  match threads w !! i with
  | Some th =>
      match status th, interval th, timer_at (target th) (elements w) with
      | Waiting, Some _, Some mt =>
          let '(mt1, ths1, g1, o) :=
            _timeout_cb (run_callback (elements w)) (target th) mt
              (threads w) (glob w) in
          (mkWorld (put_timer (target th) mt1 (elements w))
             (alter Timer_finish i ths1) g1, o)
      | _, _, _ => (w, Return)
      end
  | None => (w, Return)
  end.

(** ** [main]: the registry the script builds

    The optional command-line token goes through [set_token] first, then
    [mesh_net] is bound, then one element with index 0 carrying
    [MyVendor(0x0001)] is registered. *)
Definition main_setup (arg : option string) (scan : option (list string))
    (net : Res string) : World :=
  let g0 := initial_globals scan in
  let g1 := match arg with
            | Some s => set_token s g0
            | None => g0
            end in
  let g2 := set_mesh_net (Some net) g1 in
  let first_ele := add_model (MyVendor___init__ 0x0001) (Element___init__ 0x00) in
  add_element first_ele (mkWorld [] [] g2).

(** ** Sample data used in the examples below *)

Definition nl : string := String (ascii_of_nat 10) EmptyString.

(** A [scan.txt] with one device report. *)
Definition sample_scan : list string :=
  [String.append "[NEW] Device AA:BB -60 kitchen" nl].

Definition sample_world : World :=
  main_setup None (Some sample_scan) (Ok "/org/bluez/mesh").

Definition sample_config (period : Z) : Config :=
  mkConfig (Some [0]) (Some period) (Some []).

(** The sample registry after the daemon has pushed a 2000 ms publication
    period to model 0x0001 of element 0: one timer is waiting. *)
Definition armed_world : World :=
  fst (UpdateModelConfiguration 0 1 (sample_config 2000) sample_world).

(** The scheduler of that model as [armed_world] holds it. *)
Definition armed_pub_timer : ModTimer Callback :=
  mkModTimer (Some (Qmake 2000 1000)) (Some (publish_of (0%nat, 0%nat)))
    (Some 0%nat) false.

(** The timer it has started. *)
Definition armed_thread : Timer TimerId :=
  mkTimer (Some (Qmake 2000 1000)) (0%nat, 0%nat, slot_pub_timer) Waiting.

(** The vendor model as [main] registers it, and as [armed_world] holds
    it. *)
Definition sample_model : Model :=
  set_path "/example/ele00" (MyVendor___init__ 0x0001).

Definition armed_model : Model :=
  mkModel [0x8201; 0x8202; 0x8203; 0x8204] 1 0x05F1 [0] 2000 0
    (Some "/example/ele00") None
    (Some (mkMyVendorFields (StateBytes [("kitchen", "-60")])
             armed_pub_timer ModTimer___init__)).

(** A node that joined, attached and was then removed. *)
Definition removed_world : World :=
  remove_node_cb
    (fst (attach_app_cb "/org/bluez/mesh/node0" []
            (JoinComplete 0x1122334455667788 sample_world))).

(** ** Auxiliary notions for the properties *)

(** Apply a change of the globals to the result of a method or of a
    callback. *)
Definition on_glob {A B : Type} (h : Globals -> Globals)
    (r : A * B * Globals * outcome) : A * B * Globals * outcome :=
  let '(a, b, g, o) := r in (a, b, h g, o).

Definition on_world (h : Globals -> Globals) (r : World * outcome)
    : World * outcome :=
  (set_glob (h (glob (fst r))) (fst r), snd r).

Definition timer_unset (m : Model) : Prop := timer m = None.

(** No model of the registry has a scheduler in its [timer] attribute. *)
Definition no_timer_attribute (w : World) : Prop :=
  Forall (fun el => Forall timer_unset (models el)) (elements w).

(** What can happen to the application between [main] and the exit. *)
Inductive step : World -> World -> Prop :=
| step_join (value : Z) (w : World) :
    step w (JoinComplete value w)
| step_attach (node_path : string)
    (dict_array : list (Byte.byte * list (Z * Config))) (w : World) :
    step w (fst (attach_app_cb node_path dict_array w))
| step_configure (el_pos : nat) (id : Z) (config : Config) (w : World) :
    step w (fst (UpdateModelConfiguration el_pos id config w))
| step_tick (i : nat) (w : World) :
    step w (fst (Timer_run i w))
| step_remove (w : World) :
    step w (remove_node_cb w).

(** ** Further functions of the script

    [set_uuid] with its two globals, [bytearray.fromhex],
    [array_to_string], and the model lists an element reports. *)

(** A hexadecimal digit and its value. *)
Definition hex_digit (c : ascii) : option Z :=
  match digit_value c with
  | Some d => if d <? 16 then Some d else None
  | None => None
  end.

(** The number a string of hexadecimal digits spells, most significant
    digit first. *)
Definition hex_value (s : string) : Z :=
  fold_left (fun acc c => acc * 16 + match digit_value c with
                                      | Some d => d
                                      | None => 0
                                      end)
            (list_ascii_of_string s) 0.

(** [Py_ISSPACE] proper: the six ASCII blanks. *)
Definition Py_ISSPACE_ASCII (c : ascii) : bool :=
  let n := Z.of_N (N_of_ascii c) in
  ((9 <=? n) && (n <=? 13)) || (n =? 32).

(** The loop of [bytearray.fromhex] ([_PyBytes_FromHex], Python 3.7 and
    later): blanks are skipped between bytes, each byte is two adjacent
    hexadecimal digits; anything else is [ValueError]. *)
Fixpoint fromhex_loop (p : list ascii) : Res (list Z) :=
  match p with
  | [] => Ok []
  | c :: p' =>
      if Py_ISSPACE_ASCII c then fromhex_loop p'
      else
        match hex_digit c, p' with
        | Some top, c2 :: p'' =>
            match hex_digit c2 with
            | Some bot =>
                match fromhex_loop p'' with
                | Ok bs => Ok ((top * 16 + bot) :: bs)
                | Raise e => Raise e
                end
            | None => Raise ValueError
            end
        | _, _ => Raise ValueError
        end
  end.

(** [bytearray.fromhex(s)]: a string with a non-ASCII character is
    refused before the loop. *)
Definition fromhex (s : string) : Res (list Z) :=
  let p := list_ascii_of_string s in
  if existsb (fun c => 128 <=? Z.of_N (N_of_ascii c)) p
  then Raise ValueError
  else fromhex_loop p.

(** The globals [remote_uuid] and [have_uuid]. *)
Record UuidGlobals : Type := mkUuidGlobals {
  remote_uuid : option (list Z);
  have_uuid : bool
}.

Definition initial_uuid_globals : UuidGlobals := mkUuidGlobals None false.

Definition set_uuid (str_value : string) (g : Globals) (u : UuidGlobals)
    : Globals * UuidGlobals * outcome :=
  if negb (String.length str_value =? 32)%nat then (raise_error g, u, Return)
  else
    match fromhex str_value with
    | Raise e => (g, u, Raised e)
    | Ok bs => (g, mkUuidGlobals (Some bs) true, Return)
    end.

(** [array_to_string]: the loop appends ['%02x' % b] for each item. *)
Fixpoint array_to_string_loop (b_array : list Z) (str_value : string)
    : string :=
  match b_array with
  | [] => str_value
  | b :: rest =>
      array_to_string_loop rest (String.append str_value (format_02x b))
  end.

Definition array_to_string (b_array : list Z) : string :=
  array_to_string_loop b_array EmptyString.

(** The number of ASCII blanks in a string. *)
Definition count_blanks (s : string) : nat :=
  length (List.filter Py_ISSPACE_ASCII (list_ascii_of_string s)).

(** Whether ['%02x' % b] is two hexadecimal digits that spell [b] again. *)
Definition two_digit_format (b : Z) : bool :=
  match list_ascii_of_string (format_02x b) with
  | [c1; c2] =>
      match hex_digit c1, hex_digit c2 with
      | Some top, Some bot => top * 16 + bot =? b
      | _, _ => false
      end
  | _ => false
  end.

(** A byte value. *)
Definition is_byte (b : Z) : Prop := 0 <= b < 256.

(** The capability options reported with a model: always the empty list. *)
Definition Options : Type := list (string * string).

(** [Element._get_sig_models]: the models without vendor id. *)
Fixpoint _get_sig_models_loop (ms : list Model) (mods : list (Z * Options))
    : list (Z * Options) :=
  match ms with
  | [] => mods
  | model :: rest =>
      let opts : Options := [] in
      let id := get_id model in
      let vendor := get_vendor model in
      if vendor =? VENDOR_ID_NONE
      then _get_sig_models_loop rest (mods ++ [(id, opts)])
      else _get_sig_models_loop rest mods
  end.

Definition _get_sig_models (self : Element) : list (Z * Options) :=
  _get_sig_models_loop (models self) [].

(** [Element._get_v_models]: the models with a vendor id. *)
Fixpoint _get_v_models_loop (ms : list Model)
    (mods : list (Z * Z * Options)) : list (Z * Z * Options) :=
  match ms with
  | [] => mods
  | model :: rest =>
      let opts : Options := [] in
      let id := get_id model in
      let v := get_vendor model in
      if negb (v =? VENDOR_ID_NONE)
      then _get_v_models_loop rest (mods ++ [(v, id, opts)])
      else _get_v_models_loop rest mods
  end.

Definition _get_v_models (self : Element) : list (Z * Z * Options) :=
  _get_v_models_loop (models self) [].

(** What configuration and ticks are not meant to change in a model: its
    opcodes, identity, path and class. *)
Definition model_identity (m : Model)
    : list Z * Z * Z * option string * bool :=
  (cmd_ops m, model_id m, vendor m, path m,
   match my_vendor m with
   | Some _ => true
   | None => false
   end).

Definition registry_shape (w : World)
    : list (string * Z * list (list Z * Z * Z * option string * bool)) :=
  map (fun el => (Element_path el, index el,
                  map model_identity (models el)))
      (elements w).

(** Relations between registries, element by element and model by
    model. *)
Definition element_rel (Rm : Model -> Model -> Prop) (e e' : Element)
    : Prop :=
  Element_path e' = Element_path e
  /\ index e' = index e
  /\ Forall2 Rm (models e) (models e').

Definition registry_rel (Rm : Model -> Model -> Prop)
    (els els' : list Element) : Prop :=
  Forall2 (element_rel Rm) els els'.

Definition same_identity (m m' : Model) : Prop :=
  model_identity m' = model_identity m.

(** The scheduler [t_timer] of a vendor model is as [__init__] made it. *)
Definition t_timer_unused (m : Model) : Prop :=
  forall mv, my_vendor m = Some mv -> t_timer mv = ModTimer___init__.

Definition keeps_t_timer (m m' : Model) : Prop :=
  t_timer_unused m -> t_timer_unused m'.

(** Every timer was given the [_timeout_cb] of a [pub_timer]. *)
Definition publication_timers (ths : list (Timer TimerId)) : Prop :=
  Forall (fun t => snd (target t) = slot_pub_timer) ths.

(** The keys of a [dict], in insertion order. *)
Definition dict_keys (d : dict) : list string := map fst d.

(** A subscription [print_subscriptions] can print: an address, or a
    label of 16 bytes. *)
Definition printable_subscription (s : Subscription) : Prop :=
  match s with
  | SubAddress _ => True
  | SubLabel label => length label = 16%nat
  end.

(** What the scan loops do to [scanned]: they only raise [IndexError],
    and they never drop a key. *)
Definition scan_result_ok (sc : dict) (r : dict * outcome) : Prop :=
  (snd r = Return \/ snd r = Raised IndexError)
  /\ forall x, In x (dict_keys sc) -> In x (dict_keys (fst r)).

(** The same as a test. *)
Definition printable (s : Subscription) : bool :=
  match s with
  | SubAddress _ => true
  | SubLabel label => (length label =? 16)%nat
  end.

(** ** [unwrap]

    What arrives over D-Bus, by the [isinstance] tests of [unwrap]:
    [DInteger] stands for the six integer types, [DSequence] for
    [dbus.Array], [list] and [tuple] (a [dbus.Struct] is a tuple),
    [DMapping] for [dbus.Dictionary] and [dict] with its items in order,
    [DOther] for an object of any other type. *)
#[warnings="-register-all"] Inductive DBusValue : Type :=
| DBoolean (b : bool)
| DInteger (n : Z)
| DByte (x : Byte.byte)
| DString (s : string)
| DSequence (items : list DBusValue)
| DMapping (items : list (DBusValue * DBusValue))
| DOther (type_name : string).

(** The plain Python values [unwrap] builds. *)
#[warnings="-register-all"] Inductive PyValue : Type :=
| PyBool (b : bool)
| PyInt (n : Z)
| PyBytes (l : list N)
| PyStr (s : string)
| PyList (l : list PyValue)
| PyDict (items : list (PyValue * PyValue)).

(** A list comprehension over a function that may raise: the first
    exception ends it. *)
Definition comprehension {A B : Type} (f : A -> Res B)
    : list A -> Res (list B) :=
  fix go (l : list A) : Res (list B) :=
    match l with
    | [] => Ok []
    | x :: rest =>
        match f x with
        | Ok y =>
            match go rest with
            | Ok ys => Ok (y :: ys)
            | Raise e => Raise e
            end
        | Raise e => Raise e
        end
    end.

(** Lists and dicts cannot be dict keys. *)
Definition hashable (v : PyValue) : bool :=
  match v with
  | PyBool _ | PyInt _ | PyBytes _ | PyStr _ => true
  | PyList _ | PyDict _ => false
  end.

Fixpoint bytes_eqb (a b : list N) : bool :=
  match a, b with
  | [], [] => true
  | x :: a', y :: b' => N.eqb x y && bytes_eqb a' b'
  | _, _ => false
  end.

(** [==] on hashable values: [True == 1] and [False == 0]. *)
Definition key_eqb (a b : PyValue) : bool :=
  match a, b with
  | PyBool x, PyBool y => Bool.eqb x y
  | PyBool x, PyInt n | PyInt n, PyBool x => n =? (if x then 1 else 0)
  | PyInt n, PyInt m => n =? m
  | PyBytes x, PyBytes y => bytes_eqb x y
  | PyStr x, PyStr y => String.eqb x y
  | _, _ => false
  end.

(** [d[k] = v] on a dict in insertion order: an equal key keeps its place
    and its first spelling. *)
Fixpoint py_dict_set (k v : PyValue) (d : list (PyValue * PyValue))
    : list (PyValue * PyValue) :=
  match d with
  | [] => [(k, v)]
  | (k', v') :: d' =>
      if key_eqb k' k then (k', v) :: d' else (k', v') :: py_dict_set k v d'
  end.

(** [dict(pairs)]: an unhashable key is [TypeError]. *)
Fixpoint py_dict (pairs acc : list (PyValue * PyValue))
    : Res (list (PyValue * PyValue)) :=
  match pairs with
  | [] => Ok acc
  | (k, v) :: rest =>
      if hashable k then py_dict rest (py_dict_set k v acc)
      else Raise TypeError
  end.

(** The last two lines of [unwrap] concatenate a [str] and a [type], so
    they raise [TypeError] before the [return]. *)
Fixpoint unwrap (item : DBusValue) : Res PyValue :=
  match item with
  | DBoolean b => Ok (PyBool b)
  | DInteger n => Ok (PyInt n)
  | DByte x => Ok (PyBytes [Byte.to_N x])
  | DString s => Ok (PyStr s)
  | DSequence items =>
      match comprehension unwrap items with
      | Ok vs => Ok (PyList vs)
      | Raise e => Raise e
      end
  | DMapping items =>
      match comprehension
              (fun kv : DBusValue * DBusValue =>
                 let (x, y) := kv in
                 match unwrap x with
                 | Ok k =>
                     match unwrap y with
                     | Ok v => Ok (k, v)
                     | Raise e => Raise e
                     end
                 | Raise e => Raise e
                 end) items with
      | Ok kvs =>
          match py_dict kvs [] with
          | Ok d => Ok (PyDict d)
          | Raise e => Raise e
          end
      | Raise e => Raise e
      end
  | DOther _ => Raise TypeError
  end.

(** The values whose type [unwrap] handles and that may be dict keys
    after unwrapping. *)
Definition scalar (item : DBusValue) : bool :=
  match item with
  | DBoolean _ | DInteger _ | DByte _ | DString _ => true
  | _ => false
  end.

(** A value all of whose parts [unwrap] handles: no object of another
    type anywhere, dict keys scalar. *)
Fixpoint supported (item : DBusValue) : bool :=
  match item with
  | DSequence items => forallb supported items
  | DMapping items =>
      forallb (fun kv : DBusValue * DBusValue =>
                 let (x, y) := kv in scalar x && supported y) items
  | DOther _ => false
  | _ => true
  end.

(** * Properties *)

(** ** [set_token] *)

Lemma set_token_wrong_length (str_value : string) (g : Globals) :
  String.length str_value <> 16%nat ->
  set_token str_value g = raise_error g.
Proof.
  intros Hlen. unfold set_token.
  destruct (Nat.eqb_spec (String.length str_value) 16) as [E | E].
  - contradiction.
  - reflexivity.
Qed.

Lemma set_token_not_a_number (str_value : string) (g : Globals) :
  int str_value 16 = None ->
  set_token str_value g = raise_error g.
Proof.
  intros Hint. unfold set_token. rewrite Hint.
  destruct (negb _); reflexivity.
Qed.

(** C10. When [set_token] rejects its argument - the length is not 16 or
    [int(str_value, 16)] raises [ValueError] - the globals [token] and
    [have_token] keep the values they had before the call, whatever these
    were, and the error flag is set. *)
Theorem set_token_failure_keeps_token (str_value : string) (g : Globals) :
  String.length str_value <> 16%nat \/ int str_value 16 = None ->
  token (set_token str_value g) = token g
  /\ have_token (set_token str_value g) = have_token g
  /\ input_error (set_token str_value g) = true.
Proof.
  intros [Hlen | Hint].
  - rewrite (set_token_wrong_length _ _ Hlen). repeat split.
  - rewrite (set_token_not_a_number _ _ Hint). repeat split.
Qed.

Lemma set_token_failure_keeps_token_witness :
  token (set_token "not-hex-but-16-c"
           (set_have_token true
              (set_token_field (Some 0x1122334455667788)
                 (initial_globals None))))
  = Some 0x1122334455667788
  /\ have_token (set_token "not-hex-but-16-c"
                   (set_have_token true
                      (set_token_field (Some 0x1122334455667788)
                         (initial_globals None))))
     = true
  /\ input_error (set_token "not-hex-but-16-c"
                    (set_have_token true
                       (set_token_field (Some 0x1122334455667788)
                          (initial_globals None))))
     = true.
Proof.
  apply (set_token_failure_keeps_token "not-hex-but-16-c"
           (set_have_token true
              (set_token_field (Some 0x1122334455667788)
                 (initial_globals None)))).
  right. reflexivity.
Defined.

(** C4, at the input where the code departs from it.  The 16-character
    string [0x00000000000001] contains the non-hexadecimal character [x],
    yet [int(_, 16)] reads it as a prefixed literal: no error is raised,
    [have_token] becomes true and the token is 1. *)
Theorem set_token_accepts_prefixed_literal (scan : option (list string)) :
  String.length "0x00000000000001" = 16%nat
  /\ hex_digits_only "0x00000000000001" = false
  /\ input_error (set_token "0x00000000000001" (initial_globals scan)) = false
  /\ have_token (set_token "0x00000000000001" (initial_globals scan)) = true
  /\ token (set_token "0x00000000000001" (initial_globals scan)) = Some 1.
Proof. repeat split. Qed.

(** A sign, a surrounding blank and digit-group underscores pass the same
    way. *)
Example set_token_accepts_sign_blank_underscore :
  set_token "+00000000000000a" (initial_globals None)
  = set_have_token true (set_token_field (Some 10) (initial_globals None))
  /\ set_token " 00000000000000a" (initial_globals None)
     = set_have_token true (set_token_field (Some 10) (initial_globals None))
  /\ set_token "0000_0000_0000_a" (initial_globals None)
     = set_have_token true (set_token_field (Some 10) (initial_globals None)).
Proof. repeat split. Qed.

(** For sixteen hexadecimal digits the stored token is the number they
    spell. *)
Example set_token_accepts_sixteen_digits :
  set_token "1122334455667788" (initial_globals None)
  = set_have_token true
      (set_token_field (Some 0x1122334455667788) (initial_globals None)).
Proof. reflexivity. Qed.

(** ** [ModTimer] *)

Section ModTimerFacts.
Context {Tid F Env : Type}.
Variable call : F -> Env -> Env * outcome.

Lemma armed_app (ths1 ths2 : list (Timer Tid)) :
  armed (ths1 ++ ths2) = armed ths1 ++ armed ths2.
Proof. unfold armed. apply List.filter_app. Qed.

(** Outside [_timeout_cb] the busy flag is down, and then [start]
    always creates one more waiting timer, whether or not the scheduler
    already tracks one. *)
Lemma start_not_busy (self_id : Tid) (secs : Q) (f : F)
    (self : ModTimer F) (ths : list (Timer Tid)) :
  busy self = false ->
  start self_id secs f self ths
  = (mkModTimer (Some secs) (Some f) (Some (length ths)) false,
     ths ++ [mkTimer (Some secs) self_id Waiting]).
Proof.
  intros Hb. unfold start, _schedule_timer, set_thread. simpl.
  rewrite Hb. reflexivity.
Qed.

(** The guard of [start]: with the flag up nothing is scheduled. *)
Lemma start_busy (self_id : Tid) (secs : Q) (f : F)
    (self : ModTimer F) (ths : list (Timer Tid)) :
  busy self = true ->
  start self_id secs f self ths
  = (mkModTimer (Some secs) (Some f) (thread self) true, ths).
Proof.
  intros Hb. unfold start. simpl. rewrite Hb. reflexivity.
Qed.

(** [_timeout_cb] hands the flag back as it found it when it was down. *)
Lemma _timeout_cb_busy (self_id : Tid) (self : ModTimer F)
    (ths : list (Timer Tid)) (env : Env) :
  busy self = false ->
  busy (fst (fst (fst (_timeout_cb call self_id self ths env)))) = false.
Proof.
  intros Hb. unfold _timeout_cb.
  destruct (func self) as [f |]; [| exact Hb].
  destruct (call f env) as [env1 [| e]]; simpl; [reflexivity | exact Hb].
Qed.
End ModTimerFacts.

(** Two calls of [start] between ticks add two waiting timers, whatever
    was there before. *)
Lemma start_twice_not_busy {Tid F : Type} (self_id : Tid) (secs : Q) (f : F)
    (self : ModTimer F) (ths : list (Timer Tid)) :
  busy self = false ->
  armed (snd (start self_id secs f
                (fst (start self_id secs f self ths))
                (snd (start self_id secs f self ths))))
  = armed ths ++ [mkTimer (Some secs) self_id Waiting;
                  mkTimer (Some secs) self_id Waiting].
Proof.
  intros Hb. rewrite (start_not_busy self_id secs f self ths Hb).
  cbn [fst snd]. rewrite start_not_busy by reflexivity. cbn [snd].
  rewrite <- List.app_assoc, armed_app. reflexivity.
Qed.

(** C1, at the input where the code departs from it.  On a new scheduler
    two calls of [start] in a row, with no [cancel] and no tick between
    them, leave two waiting timers; the scheduler's [thread] attribute
    names the second one only. *)
Theorem start_twice_arms_two_timers {Tid F : Type} (self_id : Tid)
    (secs : Q) (f : F) :
  let '(self1, ths1) := start self_id secs f ModTimer___init__ [] in
  let '(self2, ths2) := start self_id secs f self1 ths1 in
  armed ths2 = [mkTimer (Some secs) self_id Waiting;
                mkTimer (Some secs) self_id Waiting]
  /\ thread self2 = Some 1%nat
  /\ busy self1 = false.
Proof. repeat split. Qed.

(** C6 as the code has it.  When the callback raises, [_timeout_cb] lets
    the exception out at once: the scheduler and the list of timers are
    as before the tick, so nothing is scheduled for the next period.
    When the callback returns, exactly one new timer for the same
    [seconds] is appended and tracked, and the busy flag is lowered. *)
Theorem timeout_cb_reschedules_only_on_return {Tid F Env : Type}
    (call : F -> Env -> Env * outcome) (self_id : Tid) (self : ModTimer F)
    (ths : list (Timer Tid)) (env : Env) (f : F) :
  func self = Some f ->
  match call f env with
  | (env1, Raised e) =>
      _timeout_cb call self_id self ths env = (self, ths, env1, Raised e)
  | (env1, Return) =>
      _timeout_cb call self_id self ths env
      = (mkModTimer (seconds self) (Some f) (Some (length ths)) false,
         ths ++ [mkTimer (seconds self) self_id Waiting], env1, Return)
  end.
Proof.
  intros Hf. unfold _timeout_cb. rewrite Hf.
  destruct (call f env) as [env1 [| e]]; [| reflexivity].
  unfold _schedule_timer, set_busy, set_thread. simpl.
  rewrite Hf. reflexivity.
Qed.

Lemma timeout_cb_reschedules_only_on_return_witness :
  func armed_pub_timer = Some (publish_of (0%nat, 0%nat))
  /\ _timeout_cb (run_callback (elements armed_world))
       (0%nat, 0%nat, slot_pub_timer) armed_pub_timer
       (threads armed_world) (glob armed_world)
     = (armed_pub_timer, threads armed_world, glob armed_world,
        Raised AttributeError).
Proof.
  split; [reflexivity |].
  exact (timeout_cb_reschedules_only_on_return
           (run_callback (elements armed_world))
           (0%nat, 0%nat, slot_pub_timer) armed_pub_timer
           (threads armed_world) (glob armed_world)
           (publish_of (0%nat, 0%nat)) eq_refl).
Defined.

(** C6 fails on the code: in [armed_world] the node is not attached, so
    [publish] raises when the timer fires; the exception leaves
    [_timeout_cb], and afterwards no timer is waiting - publication has
    stopped for good. *)
Lemma tick_error_loses_all_future_ticks :
  armed (threads armed_world) = [armed_thread]
  /\ snd (Timer_run 0 armed_world) = Raised AttributeError
  /\ armed (threads (fst (Timer_run 0 armed_world))) = [].
Proof. repeat split. Qed.

(** With the node attached the same tick publishes and re-arms. *)
Example tick_publishes_and_rearms :
  let w := fst (attach_app_cb "/org/bluez/mesh/node0" [] armed_world) in
  snd (Timer_run 0 w) = Return
  /\ length (published (glob (fst (Timer_run 0 w)))) = 1%nat
  /\ armed (threads (fst (Timer_run 0 w)))
     = [mkTimer (Some (Qmake 2000 1000)) (0%nat, 0%nat, slot_pub_timer)
          Waiting]
  /\ length (threads (fst (Timer_run 0 w))) = 2%nat.
Proof. repeat split. Qed.

(** The double start of C1 in the registry: the same configuration
    pushed twice leaves two waiting timers, both fire and publish, and
    each re-arms itself. *)
Example second_configuration_doubles_the_schedule :
  let w1 := fst (attach_app_cb "/org/bluez/mesh/node0" [] armed_world) in
  let w2 := fst (UpdateModelConfiguration 0 1 (sample_config 2000) w1) in
  let w3 := fst (Timer_run 1 (fst (Timer_run 0 w2))) in
  length (armed (threads w2)) = 2%nat
  /\ length (published (glob w3)) = 2%nat
  /\ length (armed (threads w3)) = 2%nat.
Proof. repeat split. Qed.

(** ** [MessageReceived] *)

(** The entry each model's own [process_message] leaves. *)
Lemma process_message_enters_itself (self : Model) (source key : Z)
    (dest : Dest) (data : list Z) (calls : list Invocation) :
  process_message self source dest key data calls
  = (self,
     calls ++ [mkInvocation self source dest key data
                 match my_vendor self with
                 | Some _ => ["message received"]
                 | None => []
                 end]).
Proof. unfold process_message. destruct (my_vendor self); reflexivity. Qed.

Lemma MessageReceived_loop_spec (ms : list Model) :
  forall (source key : Z) (dest : Dest) (data : list Z)
         (calls : list Invocation),
    MessageReceived_loop ms source key dest data calls
    = (ms,
       calls ++ map (fun m => mkInvocation m source dest key data
                                match my_vendor m with
                                | Some _ => ["message received"]
                                | None => []
                                end) ms).
Proof.
  induction ms as [| model rest IH]; intros source key dest data calls.
  - simpl. rewrite List.app_nil_r. reflexivity.
  - cbn [MessageReceived_loop map].
    rewrite process_message_enters_itself, IH, <- List.app_assoc.
    reflexivity.
Qed.

(** The calls of [process_message] on a list of models, one after the
    other, leave one entry each. *)
Lemma process_message_in_turn (ms : list Model) :
  forall (source key : Z) (dest : Dest) (data : list Z)
         (calls : list Invocation),
    fold_left (fun cs m => snd (process_message m source dest key data cs))
      ms calls
    = calls ++ map (fun m => mkInvocation m source dest key data
                               match my_vendor m with
                               | Some _ => ["message received"]
                               | None => []
                               end) ms.
Proof.
  induction ms as [| model rest IH]; intros source key dest data calls.
  - simpl. rewrite List.app_nil_r. reflexivity.
  - cbn [fold_left map].
    rewrite process_message_enters_itself. cbn [snd].
    rewrite IH, <- List.app_assoc. reflexivity.
Qed.

(** C9. [MessageReceived] has [process_message] run once on each model
    of the element, from the first registered to the last: what it
    leaves is what the calls [model.process_message(source, dest, key,
    data)] leave when made in registration order, the element being as
    it was.  The trace therefore grows by exactly one entry per model,
    each entered by that model's own [process_message] - the plain one
    or the vendor one, which prints - with the message's source,
    destination, key and data. *)
Theorem MessageReceived_reaches_every_model (self : Element)
    (source key : Z) (dest : Dest) (data : list Z)
    (calls : list Invocation) :
  MessageReceived self source key dest data calls
  = (self,
     fold_left (fun cs m => snd (process_message m source dest key data cs))
       (models self) calls)
  /\ MessageReceived self source key dest data calls
     = (self,
        calls ++ map (fun m => mkInvocation m source dest key data
                                 match my_vendor m with
                                 | Some _ => ["message received"]
                                 | None => []
                                 end) (models self)).
Proof.
  rewrite process_message_in_turn.
  unfold MessageReceived. rewrite MessageReceived_loop_spec.
  destruct self as [p ms idx]. split; reflexivity.
Qed.

(** With two models registered both are called, the first one first. *)
Example MessageReceived_two_models :
  let el := add_model (Model___init__ 0x1001)
              (add_model (MyVendor___init__ 0x0001) (Element___init__ 0)) in
  map (fun c => (model_id (inv_self c), inv_printed c))
      (snd (MessageReceived el 0x0042 0 (DestAddress 0x00aa) [1; 2] []))
  = [(0x0001, ["message received"]); (0x1001, [])].
Proof. reflexivity. Qed.

(** ** [remove_node_cb] *)

(** C8 as the code has it.  [remove_node_cb] lowers [attached] and
    [have_token] and does nothing else: the token value, the registry
    and every timer are as before. *)
Theorem remove_node_cb_clears_flags_only (w : World) :
  have_token (glob (remove_node_cb w)) = false
  /\ attached (glob (remove_node_cb w)) = false
  /\ token (glob (remove_node_cb w)) = token (glob w)
  /\ elements (remove_node_cb w) = elements w
  /\ threads (remove_node_cb w) = threads w.
Proof. repeat split. Qed.

(** C8 fails on the code: the timer waiting in [armed_world] is still
    waiting after the removal. *)
Lemma remove_node_cb_leaves_timer_waiting :
  armed (threads armed_world) = [armed_thread]
  /\ armed (threads (remove_node_cb armed_world)) = [armed_thread]
  /\ armed (threads (remove_node_cb armed_world)) <> [].
Proof. repeat split. discriminate. Qed.

(** ** Configuration and the lifecycle flags

    Applying a configuration reads [scan_txt] and [scanned] and writes
    [scanned] and [loop_quit]; any change [h] of the other globals can be
    made before or after it with the same result. *)

Section ConfigFrame.
Variable h : Globals -> Globals.
Hypothesis h_scan_txt : forall g, scan_txt (h g) = scan_txt g.
Hypothesis h_scanned : forall g, scanned (h g) = scanned g.
Hypothesis h_quit : forall g, h (mainloop_quit g) = mainloop_quit (h g).
Hypothesis h_set_scanned :
  forall sc g, h (set_scanned sc g) = set_scanned sc (h g).

Lemma MyVendor_set_publication_frame (r : ModelRef) (self : Model)
    (mv : MyVendorFields) (period : Z) (ths : list (Timer TimerId))
    (g : Globals) :
  MyVendor_set_publication r self mv period ths (h g)
  = on_glob h (MyVendor_set_publication r self mv period ths g).
Proof.
  unfold MyVendor_set_publication, on_glob.
  rewrite h_scan_txt, h_scanned.
  destruct (period =? 0).
  { destruct (cancel (pub_timer mv) ths); reflexivity. }
  destruct (period <? 1000); [reflexivity |].
  destruct (scan_txt g) as [[| line lines] |]; cbv beta iota zeta;
    rewrite <- ?h_quit; try reflexivity.
  destruct (scan_new (line :: lines) (line :: lines) (scanned g))
    as [sc [| e]]; cbv beta iota zeta; rewrite <- h_set_scanned.
  - destruct sc; rewrite <- ?h_quit; [reflexivity |].
    destruct (start _ _ _ _ _); reflexivity.
  - reflexivity.
Qed.

Lemma set_publication_frame (r : ModelRef) (self : Model) (period : Z)
    (ths : list (Timer TimerId)) (g : Globals) :
  set_publication r self period ths (h g)
  = on_glob h (set_publication r self period ths g).
Proof.
  unfold set_publication. destruct (my_vendor self); [| reflexivity].
  apply MyVendor_set_publication_frame.
Qed.

Lemma set_config_frame (r : ModelRef) (self : Model) (config : Config)
    (ths : list (Timer TimerId)) (g : Globals) :
  set_config r self config ths (h g)
  = on_glob h (set_config r self config ths g).
Proof.
  unfold set_config.
  destruct (PublicationPeriod config) as [period |].
  - rewrite set_publication_frame.
    destruct (set_publication _ _ _ _ _) as [[[m t] g1] [| e]]; simpl;
      [destruct (Subscriptions config) |]; reflexivity.
  - destruct (Subscriptions config); reflexivity.
Qed.

Lemma update_model_config_loop_frame (el_pos : nat) (ms : list Model) :
  forall (pos : nat) (id : Z) (config : Config)
         (ths : list (Timer TimerId)) (g : Globals),
    update_model_config_loop el_pos pos ms id config ths (h g)
    = on_glob h (update_model_config_loop el_pos pos ms id config ths g).
Proof.
  induction ms as [| model rest IH]; intros pos id config ths g.
  - reflexivity.
  - simpl. destruct (id =? get_id model).
    + rewrite set_config_frame.
      destruct (set_config _ _ _ _ _) as [[[m t] g1] o]. reflexivity.
    + rewrite IH.
      destruct (update_model_config_loop _ _ _ _ _ _ _) as [[[m t] g1] o].
      reflexivity.
Qed.

Lemma update_model_config_frame (el_pos : nat) (self : Element) (id : Z)
    (config : Config) (ths : list (Timer TimerId)) (g : Globals) :
  update_model_config el_pos self id config ths (h g)
  = on_glob h (update_model_config el_pos self id config ths g).
Proof.
  unfold update_model_config. rewrite update_model_config_loop_frame.
  destruct (update_model_config_loop _ _ _ _ _ _ _) as [[[m t] g1] o].
  reflexivity.
Qed.

Lemma set_model_config_frame (el_pos : nat)
    (configs : list (Z * Config)) :
  forall (self : Element) (ths : list (Timer TimerId)) (g : Globals),
    set_model_config el_pos self configs ths (h g)
    = on_glob h (set_model_config el_pos self configs ths g).
Proof.
  induction configs as [| [mod_id config] rest IH]; intros self ths g.
  - reflexivity.
  - simpl. rewrite update_model_config_frame.
    destruct (update_model_config _ _ _ _ _ _) as [[[s1 t1] g1] [| e]];
      simpl; [apply IH | reflexivity].
Qed.

Lemma attach_app_cb_loop_frame
    (els : list (Byte.byte * list (Z * Config))) :
  forall (w : World),
    attach_app_cb_loop els (set_glob (h (glob w)) w)
    = on_world h (attach_app_cb_loop els w).
Proof.
  induction els as [| [b mods] rest IH]; intros w.
  - reflexivity.
  - simpl. destruct (get_element (elements w) (unpack_b b))
      as [[pos element] |]; [| reflexivity].
    rewrite set_model_config_frame.
    destruct (set_model_config _ _ _ _ _) as [[[e1 t1] g1] [| e]]; simpl.
    + apply (IH (mkWorld (<[pos:=e1]> (elements w)) t1 g1)).
    + reflexivity.
Qed.
End ConfigFrame.

(** ** [attach_app_cb] *)

Lemma set_attached_same (g : Globals) : set_attached (attached g) g = g.
Proof. destruct g; reflexivity. Qed.

Lemma set_glob_same (w : World) : set_glob (glob w) w = w.
Proof. destruct w; reflexivity. Qed.

(** Applying the configurations never touches [attached]. *)
Lemma attach_app_cb_loop_attached
    (els : list (Byte.byte * list (Z * Config))) (w : World) :
  attached (glob (fst (attach_app_cb_loop els w))) = attached (glob w).
Proof.
  pose proof (attach_app_cb_loop_frame (set_attached (attached (glob w)))
                (fun _ => eq_refl) (fun _ => eq_refl) (fun _ => eq_refl)
                (fun _ _ => eq_refl) els w) as Hframe.
  rewrite set_attached_same, set_glob_same in Hframe.
  rewrite Hframe. reflexivity.
Qed.

(** C5 as the code has it.  [attach_app_cb] has no guard on the node
    state: in every state it sets [attached] to true, and after
    [remove_node_cb] it does exactly what it does without the removal -
    same registry, same timers, same outcome - except that [have_token]
    stays false. *)
Theorem attach_app_cb_has_no_state_guard (node_path : string)
    (dict_array : list (Byte.byte * list (Z * Config))) (w : World) :
  attached (glob (fst (attach_app_cb node_path dict_array w))) = true
  /\ attach_app_cb node_path dict_array (remove_node_cb w)
     = on_world (set_have_token false)
         (attach_app_cb node_path dict_array w).
Proof.
  split.
  - unfold attach_app_cb. rewrite attach_app_cb_loop_attached. reflexivity.
  - unfold attach_app_cb.
    apply (attach_app_cb_loop_frame (set_have_token false)
             (fun _ => eq_refl) (fun _ => eq_refl) (fun _ => eq_refl)
             (fun _ _ => eq_refl) dict_array
             (set_glob
                (set_node (Some node_path)
                   (set_node_mgr (Some node_path)
                      (set_attached true (glob w)))) w)).
Qed.

(** C5 fails on the code: the node of [removed_world] is removed
    ([attached] and [have_token] are false); an attach completion that
    arrives now sets [attached] and applies its configuration, which
    starts a publication timer. *)
Lemma stale_attach_completion_is_applied :
  attached (glob removed_world) = false
  /\ have_token (glob removed_world) = false
  /\ attached
       (glob (fst (attach_app_cb "/org/bluez/mesh/node0"
                     [(Byte.x00, [(1, sample_config 2000)])]
                     removed_world)))
     = true
  /\ armed
       (threads (fst (attach_app_cb "/org/bluez/mesh/node0"
                        [(Byte.x00, [(1, sample_config 2000)])]
                        removed_world)))
     = [armed_thread].
Proof. repeat split. Qed.

(** C2, where the code departs from it.  When the first entry names an
    element index that no registered element has, [get_element] returns
    [None] and the call of [set_model_config] on it raises
    [AttributeError]: the callback stops there, with [attached], [node]
    and [node_mgr] already set and the remaining entries not applied. *)
Theorem attach_app_cb_unknown_element_raises (node_path : string)
    (b : Byte.byte) (mods : list (Z * Config))
    (rest : list (Byte.byte * list (Z * Config))) (w : World) :
  get_element (elements w) (unpack_b b) = None ->
  attach_app_cb node_path ((b, mods) :: rest) w
  = (set_glob
       (set_node (Some node_path)
          (set_node_mgr (Some node_path) (set_attached true (glob w)))) w,
     Raised AttributeError).
Proof.
  intros Hnone. unfold attach_app_cb. simpl. rewrite Hnone. reflexivity.
Qed.

Lemma attach_app_cb_unknown_element_raises_witness :
  get_element (elements sample_world) (unpack_b Byte.x01) = None
  /\ attach_app_cb "/org/bluez/mesh/node0"
       [(Byte.x01, [(1, sample_config 2000)]);
        (Byte.x00, [(1, sample_config 2000)])] sample_world
     = (set_glob
          (set_node (Some "/org/bluez/mesh/node0")
             (set_node_mgr (Some "/org/bluez/mesh/node0")
                (set_attached true (glob sample_world)))) sample_world,
        Raised AttributeError).
Proof.
  split; [reflexivity |].
  exact (attach_app_cb_unknown_element_raises "/org/bluez/mesh/node0"
           Byte.x01 [(1, sample_config 2000)]
           [(Byte.x00, [(1, sample_config 2000)])] sample_world eq_refl).
Defined.

(** The valid entry behind the unknown one is lost: model 0x0001 keeps
    its default period, whereas the valid entry alone configures it. *)
Example entries_after_unknown_element_are_dropped :
  option_map pub_period
    (model_at (0%nat, 0%nat)
       (elements
          (fst (attach_app_cb "/org/bluez/mesh/node0"
                  [(Byte.x01, [(1, sample_config 2000)]);
                   (Byte.x00, [(1, sample_config 2000)])] sample_world))))
  = Some 0
  /\ option_map pub_period
       (model_at (0%nat, 0%nat)
          (elements
             (fst (attach_app_cb "/org/bluez/mesh/node0"
                     [(Byte.x00, [(1, sample_config 2000)])]
                     sample_world))))
     = Some 2000.
Proof. split; reflexivity. Qed.

(** The sibling lookup by model id does skip what it does not find. *)
Lemma update_model_config_unknown_model (el_pos : nat) (ms : list Model) :
  forall (pos : nat) (id : Z) (config : Config)
         (ths : list (Timer TimerId)) (g : Globals),
    Forall (fun m => get_id m <> id) ms ->
    update_model_config_loop el_pos pos ms id config ths g
    = (ms, ths, g, Return).
Proof.
  induction ms as [| model rest IH]; intros pos id config ths g Hall.
  - reflexivity.
  - inversion Hall as [| ? ? Hne Hrest]; subst. simpl.
    destruct (Z.eqb_spec id (get_id model)) as [E | E].
    + congruence.
    + rewrite (IH _ _ _ _ _ Hrest). reflexivity.
Qed.

(** ** [app_exit] and the [timer] attribute *)

Lemma MyVendor_set_publication_timer (r : ModelRef) (self : Model)
    (mv : MyVendorFields) (period : Z) (ths : list (Timer TimerId))
    (g : Globals) :
  timer (fst (fst (fst (MyVendor_set_publication r self mv period ths g))))
  = timer self.
Proof.
  unfold MyVendor_set_publication.
  destruct (period =? 0).
  { destruct (cancel (pub_timer mv) ths); reflexivity. }
  destruct (period <? 1000); [reflexivity |].
  destruct (scan_txt g) as [[| line lines] |]; cbv beta iota zeta;
    try reflexivity.
  destruct (scan_new (line :: lines) (line :: lines) (scanned g))
    as [sc [| e]]; cbv beta iota zeta; [| reflexivity].
  destruct sc; [reflexivity |].
  destruct (start _ _ _ _ _); reflexivity.
Qed.

Lemma set_config_timer (r : ModelRef) (self : Model) (config : Config)
    (ths : list (Timer TimerId)) (g : Globals) :
  timer (fst (fst (fst (set_config r self config ths g)))) = timer self.
Proof.
  unfold set_config.
  assert (Hb : timer match Bindings config with
                     | Some b => set_bindings b self
                     | None => self
                     end = timer self)
    by (destruct (Bindings config); reflexivity).
  destruct (PublicationPeriod config) as [period |].
  - unfold set_publication.
    destruct (my_vendor _) as [mv |] eqn:Hmv.
    + pose proof (MyVendor_set_publication_timer r
                    match Bindings config with
                    | Some b => set_bindings b self
                    | None => self
                    end mv period ths g) as Ht.
      destruct (MyVendor_set_publication _ _ _ _ _ _) as [[[m t] g1] [| e]];
        simpl in *; [destruct (Subscriptions config) |];
        simpl; congruence.
    + destruct (Subscriptions config); simpl; exact Hb.
  - destruct (Subscriptions config); simpl; exact Hb.
Qed.

Lemma update_model_config_loop_timer (el_pos : nat) (ms : list Model) :
  forall (pos : nat) (id : Z) (config : Config)
         (ths : list (Timer TimerId)) (g : Globals),
    Forall timer_unset ms ->
    Forall timer_unset
      (fst (fst (fst (update_model_config_loop el_pos pos ms id config ths g)))).
Proof.
  induction ms as [| model rest IH]; intros pos id config ths g Hall.
  - constructor.
  - inversion Hall as [| ? ? Hm Hrest]; subst. simpl.
    destruct (id =? get_id model).
    + pose proof (set_config_timer (el_pos, pos) model config ths g) as Ht.
      destruct (set_config _ _ _ _ _) as [[[m t] g1] o]. simpl in *.
      constructor; [unfold timer_unset in *; congruence | exact Hrest].
    + specialize (IH (S pos) id config ths g Hrest).
      destruct (update_model_config_loop _ _ _ _ _ _ _) as [[[m t] g1] o].
      simpl in *. constructor; assumption.
Qed.

Lemma update_model_config_timer (el_pos : nat) (self : Element) (id : Z)
    (config : Config) (ths : list (Timer TimerId)) (g : Globals) :
  Forall timer_unset (models self) ->
  Forall timer_unset
    (models (fst (fst (fst (update_model_config el_pos self id config ths g))))).
Proof.
  intros Hall. unfold update_model_config.
  pose proof (update_model_config_loop_timer el_pos (models self) 0 id
                config ths g Hall) as Hl.
  destruct (update_model_config_loop _ _ _ _ _ _ _) as [[[m t] g1] o].
  exact Hl.
Qed.

Lemma set_model_config_timer (el_pos : nat) (configs : list (Z * Config)) :
  forall (self : Element) (ths : list (Timer TimerId)) (g : Globals),
    Forall timer_unset (models self) ->
    Forall timer_unset
      (models (fst (fst (fst (set_model_config el_pos self configs ths g))))).
Proof.
  induction configs as [| [mod_id config] rest IH]; intros self ths g Hall.
  - exact Hall.
  - simpl.
    pose proof (update_model_config_timer el_pos self mod_id config ths g
                  Hall) as Hu.
    destruct (update_model_config _ _ _ _ _ _) as [[[s1 t1] g1] [| e]];
      simpl in *; [apply IH |]; exact Hu.
Qed.

Lemma get_element_from_lookup (els : list Element) :
  forall (pos : nat) (idx : Z) (p : nat) (ele : Element),
    get_element_from pos els idx = Some (p, ele) ->
    ele ∈ els.
Proof.
  induction els as [| e rest IH]; intros pos idx p ele Hget; simpl in Hget.
  - discriminate.
  - destruct (get_index e =? idx).
    + injection Hget as _ <-. apply list_elem_of_here.
    + apply list_elem_of_further. exact (IH _ _ _ _ Hget).
Qed.

Lemma attach_app_cb_loop_timer
    (els : list (Byte.byte * list (Z * Config))) :
  forall (w : World),
    no_timer_attribute w ->
    no_timer_attribute (fst (attach_app_cb_loop els w)).
Proof.
  induction els as [| [b mods] rest IH]; intros w Hinv.
  - exact Hinv.
  - simpl.
    destruct (get_element (elements w) (unpack_b b))
      as [[pos element] |] eqn:Hget; [| exact Hinv].
    assert (Hel : Forall timer_unset (models element)).
    { unfold no_timer_attribute in Hinv. rewrite Forall_forall in Hinv.
      apply Hinv. exact (get_element_from_lookup _ _ _ _ _ Hget). }
    pose proof (set_model_config_timer pos mods element (threads w) (glob w)
                  Hel) as Hs.
    destruct (set_model_config _ _ _ _ _) as [[[e1 t1] g1] o]. simpl in Hs.
    assert (Hinv1 : no_timer_attribute
                      (mkWorld (<[pos:=e1]> (elements w)) t1 g1)).
    { unfold no_timer_attribute. simpl.
      apply Forall_insert; assumption. }
    destruct o as [| e]; [apply IH |]; exact Hinv1.
Qed.

Lemma UpdateModelConfiguration_timer (el_pos : nat) (id : Z)
    (config : Config) (w : World) :
  no_timer_attribute w ->
  no_timer_attribute (fst (UpdateModelConfiguration el_pos id config w)).
Proof.
  intros Hinv. unfold UpdateModelConfiguration.
  destruct (elements w !! el_pos) as [element |] eqn:Hel; [| exact Hinv].
  assert (Hms : Forall timer_unset (models element))
    by exact (Forall_lookup_1 _ _ _ _ Hinv Hel).
  pose proof (update_model_config_timer el_pos element id config (threads w)
                (glob w) Hms) as Hu.
  destruct (update_model_config _ _ _ _ _ _) as [[[e1 t1] g1] o].
  unfold no_timer_attribute. simpl in *.
  apply Forall_insert; assumption.
Qed.

Lemma put_slot_timer (s : Slot) (t mt : ModTimer Callback) (m : Model) :
  timer_of_slot s m = Some mt ->
  timer_unset m ->
  timer_unset (put_slot s t m).
Proof.
  unfold timer_unset, timer_of_slot, put_slot. intros Hslot Hm.
  destruct s.
  - congruence.
  - destruct (my_vendor m); [exact Hm | discriminate].
  - destruct (my_vendor m); [exact Hm | discriminate].
Qed.

Lemma Timer_run_timer (i : nat) (w : World) :
  no_timer_attribute w ->
  no_timer_attribute (fst (Timer_run i w)).
Proof.
  intros Hinv. unfold Timer_run.
  destruct (threads w !! i) as [th |]; [| exact Hinv].
  destruct (status th); try exact Hinv.
  destruct (interval th); [| exact Hinv].
  destruct (timer_at (target th) (elements w)) as [mt |] eqn:Hat;
    [| exact Hinv].
  destruct (_timeout_cb _ _ _ _ _) as [[[mt1 ths1] g1] o].
  unfold no_timer_attribute, put_timer. simpl.
  apply Forall_alter; [exact Hinv |].
  intros el Hel Hms. simpl.
  apply Forall_alter; [exact Hms |].
  intros m Hm Pm.
  apply (put_slot_timer _ _ mt); [| exact Pm].
  unfold timer_at, model_at in Hat. rewrite Hel, Hm in Hat. exact Hat.
Qed.

Lemma step_timer (w w' : World) :
  step w w' -> no_timer_attribute w -> no_timer_attribute w'.
Proof.
  intros Hstep Hinv. destruct Hstep.
  - exact Hinv.
  - unfold attach_app_cb. apply attach_app_cb_loop_timer. exact Hinv.
  - apply UpdateModelConfiguration_timer. exact Hinv.
  - apply Timer_run_timer. exact Hinv.
  - exact Hinv.
Qed.

Lemma main_setup_timer (arg : option string) (scan : option (list string))
    (net : Res string) :
  no_timer_attribute (main_setup arg scan net).
Proof. repeat constructor. Qed.

(** In every state the application can reach, each model's [timer]
    attribute is still [None]. *)
Lemma reachable_timer (arg : option string) (scan : option (list string))
    (net : Res string) (w : World) :
  rtc step (main_setup arg scan net) w -> no_timer_attribute w.
Proof.
  intros Hreach.
  assert (Hgen : forall w0, rtc step w0 w ->
                            no_timer_attribute w0 -> no_timer_attribute w).
  { clear. intros w0 Hr. induction Hr as [| x y z Hxy _ IH]; intros Hx.
    - exact Hx.
    - apply IH. exact (step_timer _ _ Hxy Hx). }
  exact (Hgen _ Hreach (main_setup_timer arg scan net)).
Qed.

Lemma set_models_same (el : Element) : set_models (models el) el = el.
Proof. destruct el; reflexivity. Qed.

Lemma app_exit_models_unset (ms : list Model) (ths : list (Timer TimerId)) :
  Forall timer_unset ms -> app_exit_models ms ths = (ms, ths).
Proof.
  induction 1 as [| m rest Hm _ IH]; simpl.
  - reflexivity.
  - unfold timer_unset in Hm. rewrite Hm, IH. reflexivity.
Qed.

Lemma app_exit_elements_unset (els : list Element)
    (ths : list (Timer TimerId)) :
  Forall (fun el => Forall timer_unset (models el)) els ->
  app_exit_elements els ths = (els, ths).
Proof.
  induction 1 as [| el rest Hel _ IH]; simpl.
  - reflexivity.
  - rewrite (app_exit_models_unset _ ths Hel), IH, set_models_same.
    reflexivity.
Qed.

(** C3, where the code departs from it.  [app_exit] looks for schedulers
    in the attribute [timer], which every model of every reachable state
    has at [None]; the publication schedulers sit in [pub_timer].  So in
    every state the application can reach [app_exit] cancels nothing:
    all timers and the registry are as before, and the main loop is told
    to quit. *)
Theorem app_exit_cancels_no_timer (arg : option string)
    (scan : option (list string)) (net : Res string) (w : World) :
  rtc step (main_setup arg scan net) w ->
  threads (app_exit w) = threads w
  /\ elements (app_exit w) = elements w
  /\ loop_quit (glob (app_exit w)) = true.
Proof.
  intros Hreach. unfold app_exit.
  rewrite (app_exit_elements_unset _ _ (reachable_timer _ _ _ _ Hreach)).
  repeat split.
Qed.

Lemma app_exit_cancels_no_timer_witness :
  rtc step (main_setup None (Some sample_scan) (Ok "/org/bluez/mesh"))
    armed_world
  /\ threads (app_exit armed_world) = threads armed_world
  /\ elements (app_exit armed_world) = elements armed_world
  /\ loop_quit (glob (app_exit armed_world)) = true.
Proof.
  assert (Hreach : rtc step
                     (main_setup None (Some sample_scan)
                        (Ok "/org/bluez/mesh")) armed_world).
  { apply rtc_once.
    exact (step_configure 0 1 (sample_config 2000) sample_world). }
  split; [exact Hreach |].
  exact (app_exit_cancels_no_timer None (Some sample_scan)
           (Ok "/org/bluez/mesh") armed_world Hreach).
Defined.

(** The service disappears while a publication timer is waiting: the
    callback runs [app_exit], and the timer is still waiting afterwards. *)
Example service_removed_leaves_timer_waiting :
  interfaces_removed_cb "/org/bluez/mesh" armed_world
  = (app_exit armed_world, Return)
  /\ armed (threads armed_world) = [armed_thread]
  /\ armed (threads (app_exit armed_world)) = [armed_thread].
Proof. repeat split. Qed.

(** ** [set_publication] *)

Example sample_models_in_registry :
  model_at (0%nat, 0%nat) (elements sample_world) = Some sample_model
  /\ model_at (0%nat, 0%nat) (elements armed_world) = Some armed_model.
Proof. split; reflexivity. Qed.

Lemma Timer_cancel_not_waiting {Tid : Type} (t : Timer Tid) :
  is_waiting (Timer_cancel t) = false.
Proof.
  unfold Timer_cancel, is_waiting.
  destruct (status t) eqn:E; simpl; try rewrite E; reflexivity.
Qed.

Lemma elem_of_armed {Tid : Type} (t : Timer Tid) (ths : list (Timer Tid)) :
  In t (armed ths) <-> In t ths /\ is_waiting t = true.
Proof. unfold armed. apply List.filter_In. Qed.

(** After [cancel] the timer that was tracked is not waiting, and no
    other timer has changed. *)
Lemma cancel_spec {Tid F : Type} (self : ModTimer F)
    (ths : list (Timer Tid)) :
  thread (fst (cancel self ths)) = None
  /\ (forall i t, thread self = Some i ->
                  snd (cancel self ths) !! i = Some t ->
                  is_waiting t = false)
  /\ (forall j, thread self <> Some j ->
                snd (cancel self ths) !! j = ths !! j).
Proof.
  unfold cancel. destruct (thread self) as [i |] eqn:Hth; simpl.
  - split; [reflexivity |]. split.
    + intros i' t Hi Hl. injection Hi as <-.
      rewrite list_lookup_alter_eq in Hl.
      destruct (ths !! i) as [t0 |]; cbn in Hl; [| discriminate].
      injection Hl as <-. apply Timer_cancel_not_waiting.
    + intros j Hj. apply list_lookup_alter_ne. congruence.
  - split; [exact Hth |]. split.
    + intros i t Hi. discriminate.
    + reflexivity.
Qed.

(** C7 as the code has it.  [set_publication] always stores the period.
    On a plain [Model] it does nothing more: the rest of the model, the
    timers and the globals are as before.  On a [MyVendor]:
    - period 0 cancels the timer the scheduler tracks and forgets it,
      nothing else changing, so when that timer was the scheduler's only
      waiting one, none is left;
    - a nonzero period below 1000 ms changes nothing but the period;
    - a period of at least 1000 ms, when [scan.txt] is read without
      error, has lines and leaves [scanned] non-empty, stores the scan
      and calls [pub_timer.start(period/1000, self.publish)]: with the
      busy flag down that starts one timer of period/1000 seconds, with
      the flag up it starts none. *)
Theorem set_publication_by_period (self_ref : ModelRef) (self : Model)
    (period : Z) (ths : list (Timer TimerId)) (g : Globals)
    (m1 : Model) (ths1 : list (Timer TimerId)) (g1 : Globals) (o : outcome) :
  set_publication self_ref self period ths g = (m1, ths1, g1, o) ->
  pub_period m1 = period
  /\ (my_vendor self = None ->
      m1 = set_pub_period period self /\ ths1 = ths /\ g1 = g /\ o = Return)
  /\ (forall mv, my_vendor self = Some mv ->
        (period = 0 ->
           o = Return /\ g1 = g
           /\ m1 = set_my_vendor
                     (mkMyVendorFields (state mv)
                        (fst (cancel (pub_timer mv) ths)) (t_timer mv))
                     (set_pub_period period self)
           /\ ths1 = snd (cancel (pub_timer mv) ths)
           /\ option_map (fun v => thread (pub_timer v)) (my_vendor m1)
              = Some None
           /\ (forall i t, thread (pub_timer mv) = Some i ->
                           ths1 !! i = Some t -> is_waiting t = false)
           /\ (forall j, thread (pub_timer mv) <> Some j ->
                         ths1 !! j = ths !! j)
           /\ ((forall j t, ths !! j = Some t -> is_waiting t = true ->
                            target t = (self_ref, slot_pub_timer) ->
                            thread (pub_timer mv) = Some j) ->
               forall t, In t (armed ths1) ->
                         target t <> (self_ref, slot_pub_timer)))
        /\ (period <> 0 -> period < 1000 ->
              m1 = set_pub_period period self /\ ths1 = ths /\ g1 = g
              /\ o = Return /\ my_vendor m1 = Some mv)
        /\ (1000 <= period ->
            forall lines sc,
              scan_txt g = Some lines -> lines <> [] ->
              scan_new lines lines (scanned g) = (sc, Return) -> sc <> [] ->
              o = Return /\ g1 = set_scanned sc g
              /\ m1 = set_my_vendor
                        (mkMyVendorFields (StateBytes sc)
                           (fst (start (self_ref, slot_pub_timer)
                                   (Qmake period 1000) (publish_of self_ref)
                                   (pub_timer mv) ths))
                           (t_timer mv))
                        (set_pub_period period self)
              /\ ths1 = snd (start (self_ref, slot_pub_timer)
                               (Qmake period 1000) (publish_of self_ref)
                               (pub_timer mv) ths)
              /\ (busy (pub_timer mv) = false ->
                  ths1 = ths ++ [mkTimer (Some (Qmake period 1000))
                                   (self_ref, slot_pub_timer) Waiting]
                  /\ option_map (fun v => thread (pub_timer v)) (my_vendor m1)
                     = Some (Some (length ths)))
              /\ (busy (pub_timer mv) = true ->
                  ths1 = ths
                  /\ option_map (fun v => thread (pub_timer v)) (my_vendor m1)
                     = Some (thread (pub_timer mv))))).
Proof.
  unfold set_publication. intros Heq.
  destruct (my_vendor self) as [mv |] eqn:Hmv.
  2:{ injection Heq as <- <- <- <-.
      split; [reflexivity |]. split; [intros _; repeat split |].
      intros mv Hc. discriminate. }
  unfold MyVendor_set_publication in Heq.
  destruct (Z.eqb_spec period 0) as [E0 | E0].
  - (* period 0: cancel *)
    pose proof (cancel_spec (Tid := TimerId) (pub_timer mv) ths)
      as (Hnone & Hdone & Hother).
    destruct (cancel (pub_timer mv) ths) as [pt ths'] eqn:Hcancel.
    injection Heq as <- <- <- <-. simpl in Hnone, Hdone, Hother.
    split; [reflexivity |]. split; [intros Hc; discriminate |].
    intros mv' Hmv'. injection Hmv' as <-. rewrite Hcancel.
    split; [| split; intros; lia].
    intros _. split; [reflexivity |]. split; [reflexivity |].
    split; [reflexivity |]. split; [reflexivity |].
    split; [simpl; rewrite Hnone; reflexivity |].
    split; [exact Hdone |]. split; [exact Hother |].
    intros Honly t Ht Htarget.
    apply elem_of_armed in Ht as [Hin Hw].
    apply list_elem_of_In, list_elem_of_lookup in Hin as [j Hj].
    destruct (thread (pub_timer mv)) as [i |] eqn:Hth.
    + destruct (Nat.eq_dec i j) as [-> | Hne].
      * rewrite (Hdone j t eq_refl Hj) in Hw. discriminate.
      * rewrite Hother in Hj by congruence.
        specialize (Honly j t Hj Hw Htarget). congruence.
    + rewrite Hother in Hj by congruence.
      specialize (Honly j t Hj Hw Htarget). discriminate.
  - destruct (Z.ltb_spec period 1000) as [E1 | E1].
    + (* below one second *)
      injection Heq as <- <- <- <-.
      split; [reflexivity |]. split; [intros Hc; discriminate |].
      intros mv' Hmv'. injection Hmv' as <-.
      split; [intros; lia |]. split; [| intros; lia].
      intros _ _. repeat split. simpl. exact Hmv.
    + (* at least one second *)
      assert (Hp : pub_period m1 = period).
      { destruct (scan_txt g) as [[| line lines] |];
          [injection Heq as <- <- <- <-; reflexivity | |
           injection Heq as <- <- <- <-; reflexivity].
        destruct (scan_new _ _ _) as [sc [| e]];
          [| injection Heq as <- <- <- <-; reflexivity].
        destruct sc; [injection Heq as <- <- <- <-; reflexivity |].
        destruct (start _ _ _ _ _).
        injection Heq as <- <- <- <-; reflexivity. }
      split; [exact Hp |]. split; [intros Hc; discriminate |].
      intros mv' Hmv'. injection Hmv' as <-.
      split; [intros; lia |]. split; [intros; lia |].
      intros _ lines sc Hscan Hlines Hnew Hsc.
      rewrite Hscan in Heq.
      destruct lines as [| line lines]; [congruence |].
      rewrite Hnew in Heq.
      destruct sc as [| kv sc]; [congruence |].
      destruct (busy (pub_timer mv)) eqn:Hbusy.
      * rewrite (start_busy _ _ _ _ _ Hbusy) in *.
        injection Heq as <- <- <- <-.
        repeat split; intros; discriminate.
      * rewrite (start_not_busy _ _ _ _ _ Hbusy) in *.
        injection Heq as <- <- <- <-.
        repeat split; intros; discriminate.
Qed.

Lemma set_publication_by_period_witness :
  (forall t,
      In t (armed (snd (fst (fst (set_publication (0%nat, 0%nat) armed_model 0
                                    [armed_thread] (glob armed_world)))))) ->
      target t <> (0%nat, 0%nat, slot_pub_timer))
  /\ snd (fst (fst (set_publication (0%nat, 0%nat) sample_model 2000 []
                      (glob sample_world))))
     = [] ++ [mkTimer (Some (Qmake 2000 1000))
                (0%nat, 0%nat, slot_pub_timer) Waiting].
Proof.
  split.
  - destruct (set_publication_by_period (0%nat, 0%nat) armed_model 0
                [armed_thread] (glob armed_world) _ _ _ _ eq_refl)
      as (_ & _ & Hvendor).
    destruct (Hvendor _ eq_refl) as (Hzero & _ & _).
    destruct (Hzero eq_refl) as (_ & _ & _ & _ & _ & _ & _ & Honly).
    apply Honly. intros j t Hj Hw Ht.
    destruct j as [| j]; [reflexivity | destruct j; discriminate].
  - destruct (set_publication_by_period (0%nat, 0%nat) sample_model 2000
                [] (glob sample_world) _ _ _ _ eq_refl)
      as (_ & _ & Hvendor).
    destruct (Hvendor _ eq_refl) as (_ & _ & Hsecond).
    destruct (Hsecond ltac:(lia) sample_scan [("kitchen", "-60")]
                eq_refl ltac:(discriminate) eq_refl ltac:(discriminate))
      as (_ & _ & _ & _ & Hdown & _).
    exact (proj1 (Hdown eq_refl)).
Defined.

(** C7 fails on the code: a configuration with the nonzero period 500 ms
    is stored by [set_config], and no timer is started. *)
Lemma nonzero_period_below_one_second_arms_nothing :
  PublicationPeriod (sample_config 500) = Some 500
  /\ 500 <> 0
  /\ set_config (0%nat, 0%nat) sample_model (sample_config 500) []
       (glob sample_world)
     = (set_pub_period 500 (set_bindings [0] sample_model), [],
        glob sample_world, Return)
  /\ armed (snd (fst (fst (set_config (0%nat, 0%nat) sample_model
                            (sample_config 500) [] (glob sample_world)))))
     = [].
Proof. repeat split. discriminate. Qed.

(** A plain [Model] never starts a timer either. *)
Example plain_model_arms_nothing :
  set_config (0%nat, 0%nat) (Model___init__ 0x1001) (sample_config 2000) []
    (glob sample_world)
  = (set_pub_period 2000 (set_bindings [0] (Model___init__ 0x1001)), [],
     glob sample_world, Return).
Proof. reflexivity. Qed.

(** Period 0 after the double start of C1: [cancel] reaches the tracked
    timer only, the earlier one keeps waiting. *)
Example period_zero_after_double_start :
  let w1 := fst (UpdateModelConfiguration 0 1 (sample_config 2000)
                   armed_world) in
  let w2 := fst (UpdateModelConfiguration 0 1 (sample_config 0) w1) in
  map status (threads w1) = [Waiting; Waiting]
  /\ map status (threads w2) = [Waiting; Cancelled].
Proof. split; reflexivity. Qed.

(** The scenario of the specification: attach with one element entry
    carrying bindings [0] and a period of 2000 ms. *)
Example attach_configures_and_arms :
  let w := fst (attach_app_cb "/org/bluez/mesh/node0"
                  [(Byte.x00, [(1, sample_config 2000)])]
                  (JoinComplete 0x1122334455667788 sample_world)) in
  option_map bindings (model_at (0%nat, 0%nat) (elements w)) = Some [0]
  /\ option_map pub_period (model_at (0%nat, 0%nat) (elements w)) = Some 2000
  /\ armed (threads w) = [armed_thread]
  /\ attached (glob w) = true
  /\ have_token (glob w) = true
  /\ token (glob w) = Some 0x1122334455667788.
Proof. repeat split. Qed.

(** * Further properties *)

(** ** Hexadecimal input: [set_token], [set_uuid], [array_to_string] *)

Lemma length_list_ascii (s : string) :
  length (list_ascii_of_string s) = String.length s.
Proof. induction s as [| c s IH]; simpl; [reflexivity | now rewrite IH]. Qed.

(** What a hexadecimal digit is not: a blank, a sign, an underscore, a
    prefix letter or a non-ASCII character. *)
Lemma hex_digit_facts (c : ascii) (d : Z) :
  hex_digit c = Some d ->
  digit_value c = Some d /\ 0 <= d < 16
  /\ Py_ISSPACE c = false /\ Py_ISSPACE_ASCII c = false
  /\ Ascii.eqb c "_" = false /\ Ascii.eqb c "+" = false
  /\ Ascii.eqb c "-" = false /\ is_prefix_letter 16 c = false
  /\ (128 <=? Z.of_N (N_of_ascii c)) = false.
Proof.
  destruct c as [[] [] [] [] [] [] [] []]; vm_compute; intros H;
    try discriminate; injection H as <-; repeat split; discriminate.
Qed.

Lemma hex_digits_only_cons (c : ascii) (l : list ascii) :
  forallb (fun c => match digit_value c with
                    | Some d => d <? 16
                    | None => false
                    end) (c :: l) = true ->
  (exists d, hex_digit c = Some d)
  /\ forallb (fun c => match digit_value c with
                       | Some d => d <? 16
                       | None => false
                       end) l = true.
Proof.
  simpl. intros H. apply andb_prop in H as [Hc Hl]. split; [| exact Hl].
  unfold hex_digit. destruct (digit_value c) as [d |]; [| discriminate].
  exists d. rewrite Hc. reflexivity.
Qed.

Lemma scan_digits_hex (l : list ascii) :
  forall (acc : Z) (n : nat),
    forallb (fun c => match digit_value c with
                      | Some d => d <? 16
                      | None => false
                      end) l = true ->
    scan_digits 16 l false acc n
    = Some (fold_left (fun acc c => acc * 16 + match digit_value c with
                                                | Some d => d
                                                | None => 0
                                                end) l acc,
            (n + length l)%nat, []).
Proof.
  induction l as [| c l IH]; intros acc n Hall.
  - simpl. rewrite Nat.add_0_r. reflexivity.
  - apply hex_digits_only_cons in Hall as [[d Hd] Hl].
    apply hex_digit_facts in Hd as (Hv & Hr & _ & _ & Hus & _).
    cbn [scan_digits fold_left]. rewrite Hus, Hv.
    assert (Hlt : (d <? 16) = true) by (apply Z.ltb_lt; lia).
    rewrite Hlt, (IH _ _ Hl). cbn [length].
    rewrite Nat.add_succ_r. reflexivity.
Qed.

Lemma hex_fold_bound (l : list ascii) :
  forall acc : Z,
    0 <= acc ->
    forallb (fun c => match digit_value c with
                      | Some d => d <? 16
                      | None => false
                      end) l = true ->
    0 <= fold_left (fun acc c => acc * 16 + match digit_value c with
                                             | Some d => d
                                             | None => 0
                                             end) l acc
    < (acc + 1) * 16 ^ Z.of_nat (length l).
Proof.
  induction l as [| c l IH]; intros acc Hacc Hall.
  - simpl. lia.
  - apply hex_digits_only_cons in Hall as [[d Hd] Hl].
    apply hex_digit_facts in Hd as (Hv & Hr & _).
    cbn [fold_left length]. rewrite Hv.
    specialize (IH (acc * 16 + d) ltac:(lia) Hl).
    rewrite Nat2Z.inj_succ, Z.pow_succ_r by lia.
    assert (Hp : 0 < 16 ^ Z.of_nat (length l)) by (apply Z.pow_pos_nonneg; lia).
    nia.
Qed.

(** On a non-empty string of hexadecimal digits [int(_, 16)] is the
    plain positional value. *)
Lemma int_hex_digits (s : string) :
  s <> EmptyString ->
  hex_digits_only s = true ->
  int s 16 = Some (hex_value s).
Proof.
  unfold hex_digits_only, hex_value, int. intros Hne Hall.
  destruct s as [| c s]; [congruence |]. clear Hne.
  cbn [list_ascii_of_string] in *.
  pose proof (scan_digits_hex _ 0 0%nat Hall) as Hscan.
  pose proof Hall as Hall'.
  apply hex_digits_only_cons in Hall' as [[d Hd] Hl].
  apply hex_digit_facts in Hd as (_ & _ & Hsp & _ & Hus & Hplus & Hminus & _).
  cbn [skip_space]. rewrite Hsp.
  cbn [strip_sign]. rewrite Hplus, Hminus.
  assert (Hpre : strip_prefix 16 (c :: list_ascii_of_string s)
                 = c :: list_ascii_of_string s).
  { unfold strip_prefix.
    destruct (list_ascii_of_string s) as [| c1 l1]; [reflexivity |].
    apply hex_digits_only_cons in Hl as [[d1 Hd1] _].
    apply hex_digit_facts in Hd1 as (_ & _ & _ & _ & _ & _ & _ & Hx & _).
    rewrite Hx, andb_false_r. reflexivity. }
  rewrite Hpre, Hus, Hscan. cbn [length Nat.add skip_space].
  rewrite Z.mul_1_l. reflexivity.
Qed.

(** X1. For sixteen hexadecimal digits [set_token] raises no error: the
    token becomes exactly the number the digits spell, which is below
    2^64, and [have_token] becomes true. *)
Theorem set_token_stores_hex_value (str_value : string) (g : Globals) :
  String.length str_value = 16%nat ->
  hex_digits_only str_value = true ->
  set_token str_value g
  = set_have_token true (set_token_field (Some (hex_value str_value)) g)
  /\ 0 <= hex_value str_value < 2 ^ 64.
Proof.
  intros Hlen Hall.
  assert (Hb : 0 <= hex_value str_value < 2 ^ 64).
  { unfold hex_value, hex_digits_only in *.
    pose proof (hex_fold_bound _ 0 ltac:(lia) Hall) as Hb.
    rewrite length_list_ascii, Hlen in Hb.
    change ((0 + 1) * 16 ^ Z.of_nat 16) with (2 ^ 64) in Hb. exact Hb. }
  split; [| exact Hb].
  unfold set_token. rewrite Hlen. cbn [Nat.eqb negb].
  rewrite int_hex_digits; [| destruct str_value; [discriminate | congruence]
                           | exact Hall].
  unfold numpy_uint64. rewrite Z.mod_small by exact Hb. reflexivity.
Qed.

Lemma set_token_stores_hex_value_witness :
  set_token "1122334455667788" (initial_globals None)
  = set_have_token true
      (set_token_field (Some (hex_value "1122334455667788"))
         (initial_globals None))
  /\ 0 <= hex_value "1122334455667788" < 2 ^ 64.
Proof.
  exact (set_token_stores_hex_value "1122334455667788" (initial_globals None)
           eq_refl eq_refl).
Defined.

Lemma fromhex_loop_spec (n : nat) :
  forall p : list ascii,
    (length p <= n)%nat ->
    match fromhex_loop p with
    | Ok bs =>
        (2 * length bs + length (List.filter Py_ISSPACE_ASCII p))%nat
        = length p
        /\ Forall is_byte bs
    | Raise e => e = ValueError
    end.
Proof.
  induction n as [| n IH]; intros p Hlen.
  - destruct p; [simpl; split; [reflexivity | constructor] | simpl in Hlen; lia].
  - destruct p as [| c p]; [simpl; split; [reflexivity | constructor] |].
    cbn [fromhex_loop List.filter].
    destruct (Py_ISSPACE_ASCII c) eqn:Hsp.
    + specialize (IH p ltac:(simpl in Hlen; lia)).
      destruct (fromhex_loop p) as [bs | e]; [| exact IH].
      destruct IH as [Hl Hb]. split; [simpl; lia | exact Hb].
    + destruct (hex_digit c) as [top |] eqn:Htop; [| reflexivity].
      destruct p as [| c2 p]; [reflexivity |].
      destruct (hex_digit c2) as [bot |] eqn:Hbot; [| reflexivity].
      specialize (IH p ltac:(simpl in Hlen; lia)).
      apply hex_digit_facts in Htop as (_ & Ht & _).
      apply hex_digit_facts in Hbot as (_ & Hb & _ & Hsp2 & _).
      cbn [List.filter]. rewrite Hsp2.
      destruct (fromhex_loop p) as [bs | e]; [| exact IH].
      destruct IH as [Hl Hbs]. split; [simpl; lia |].
      constructor; [unfold is_byte; lia | exact Hbs].
Qed.

(** X2. [set_uuid] ends in one of three ways.  A length other than 32
    sets the error flag and returns.  A string [fromhex] refuses lets
    [ValueError] out of [set_uuid], with the error flag not set.
    Otherwise n bytes are stored, where 2n plus the number of blanks in
    the string is 32 - so sixteen bytes only when there is no blank. *)
Theorem set_uuid_outcomes (str_value : string) (g : Globals)
    (u : UuidGlobals) :
  (String.length str_value <> 32%nat
   /\ set_uuid str_value g u = (raise_error g, u, Return))
  \/ (String.length str_value = 32%nat
      /\ set_uuid str_value g u = (g, u, Raised ValueError))
  \/ (String.length str_value = 32%nat
      /\ exists bs,
           set_uuid str_value g u = (g, mkUuidGlobals (Some bs) true, Return)
           /\ (2 * length bs + count_blanks str_value)%nat = 32%nat
           /\ Forall is_byte bs).
Proof.
  unfold set_uuid.
  destruct (Nat.eqb_spec (String.length str_value) 32) as [E | E];
    [| left; split; [exact E | reflexivity]].
  right. cbn [negb]. unfold fromhex, count_blanks.
  destruct (existsb _ _); [left; split; [exact E | reflexivity] |].
  pose proof (fromhex_loop_spec _ (list_ascii_of_string str_value)
                (Nat.le_refl _)) as Hspec.
  destruct (fromhex_loop _) as [bs | e].
  - right. split; [exact E |]. exists bs. destruct Hspec as [Hl Hb].
    rewrite length_list_ascii, E in Hl. repeat split; assumption.
  - left. subst e. split; [exact E | reflexivity].
Qed.

(** A string of 30 digits and two blanks is taken as a 15-byte UUID. *)
Example set_uuid_blanks_shorten :
  option_map (@length Z)
    (remote_uuid
       (snd (fst (set_uuid "00112233 44556677 8899aabbccddee"
                    (initial_globals None) initial_uuid_globals))))
  = Some 15%nat.
Proof. reflexivity. Qed.

Lemma fromhex_loop_bad_char (n : nat) :
  forall (p : list ascii) (c : ascii),
    (length p <= n)%nat ->
    In c p -> hex_digit c = None -> Py_ISSPACE_ASCII c = false ->
    fromhex_loop p = Raise ValueError.
Proof.
  induction n as [| n IH]; intros p c Hlen Hin Hhex Hsp.
  - destruct p; [destruct Hin | simpl in Hlen; lia].
  - destruct p as [| c1 p]; [destruct Hin |].
    cbn [fromhex_loop].
    destruct (Py_ISSPACE_ASCII c1) eqn:Hsp1.
    + destruct Hin as [-> | Hin]; [congruence |].
      apply (IH p c); [simpl in Hlen; lia | assumption ..].
    + destruct (hex_digit c1) as [top |] eqn:Htop; [| reflexivity].
      destruct Hin as [-> | Hin]; [congruence |].
      destruct p as [| c2 p]; [reflexivity |].
      destruct (hex_digit c2) as [bot |] eqn:Hbot; [| reflexivity].
      destruct Hin as [-> | Hin]; [congruence |].
      rewrite (IH p c); [reflexivity | simpl in Hlen; lia | assumption ..].
Qed.

(** X3. A 32-character string holding any character that is neither a
    hexadecimal digit nor an ASCII blank makes [set_uuid] raise
    [ValueError]; unlike [set_token] it does not go through
    [raise_error], and the UUID globals keep their values. *)
Theorem set_uuid_bad_character_raises (str_value : string) (c : ascii)
    (g : Globals) (u : UuidGlobals) :
  String.length str_value = 32%nat ->
  In c (list_ascii_of_string str_value) ->
  hex_digit c = None ->
  Py_ISSPACE_ASCII c = false ->
  set_uuid str_value g u = (g, u, Raised ValueError).
Proof.
  intros Hlen Hin Hhex Hsp. unfold set_uuid. rewrite Hlen. cbn [Nat.eqb negb].
  unfold fromhex. destruct (existsb _ _); [reflexivity |].
  rewrite (fromhex_loop_bad_char _ _ c (Nat.le_refl _) Hin Hhex Hsp).
  reflexivity.
Qed.

Lemma set_uuid_bad_character_raises_witness :
  set_uuid "0a0102030405060708090A0B0C0D0E0g" (initial_globals None)
    initial_uuid_globals
  = (initial_globals None, initial_uuid_globals, Raised ValueError).
Proof.
  apply (set_uuid_bad_character_raises _ "g"); try reflexivity.
  simpl. tauto.
Defined.

Lemma list_ascii_append (a b : string) :
  list_ascii_of_string (String.append a b)
  = list_ascii_of_string a ++ list_ascii_of_string b.
Proof. induction a as [| c a IH]; simpl; [reflexivity | now rewrite IH]. Qed.

Lemma array_to_string_loop_chars (b_array : list Z) :
  forall acc : string,
    list_ascii_of_string (array_to_string_loop b_array acc)
    = list_ascii_of_string acc
      ++ flat_map (fun b => list_ascii_of_string (format_02x b)) b_array.
Proof.
  induction b_array as [| b rest IH]; intros acc; simpl.
  - rewrite List.app_nil_r. reflexivity.
  - rewrite IH, list_ascii_append, <- List.app_assoc. reflexivity.
Qed.

Lemma two_digit_format_bytes (b : Z) :
  is_byte b -> two_digit_format b = true.
Proof.
  intros Hb.
  assert (Hall : forallb two_digit_format (map Z.of_nat (seq 0 256)) = true)
    by (vm_compute; reflexivity).
  rewrite forallb_forall in Hall. apply Hall.
  apply in_map_iff. exists (Z.to_nat b). unfold is_byte in Hb.
  split; [lia |]. apply in_seq. lia.
Qed.

Lemma fromhex_array_chars (b_array : list Z) :
  Forall is_byte b_array ->
  existsb (fun c => 128 <=? Z.of_N (N_of_ascii c))
    (flat_map (fun b => list_ascii_of_string (format_02x b)) b_array) = false
  /\ fromhex_loop
       (flat_map (fun b => list_ascii_of_string (format_02x b)) b_array)
     = Ok b_array
  /\ length (flat_map (fun b => list_ascii_of_string (format_02x b)) b_array)
     = (2 * length b_array)%nat.
Proof.
  induction 1 as [| b rest Hb _ IH].
  - repeat split.
  - destruct IH as (Hascii & Hloop & Hlen).
    pose proof (two_digit_format_bytes b Hb) as Hfmt.
    unfold two_digit_format in Hfmt. cbn [flat_map].
    destruct (list_ascii_of_string (format_02x b)) as [| c1 [| c2 [| c3 l]]];
      try discriminate.
    destruct (hex_digit c1) as [top |] eqn:H1; [| discriminate].
    destruct (hex_digit c2) as [bot |] eqn:H2; [| discriminate].
    apply Z.eqb_eq in Hfmt.
    pose proof (hex_digit_facts _ _ H1) as (_ & _ & _ & Hs1 & _ & _ & _ & _ & Ha1).
    pose proof (hex_digit_facts _ _ H2) as (_ & _ & _ & _ & _ & _ & _ & _ & Ha2).
    cbn [app existsb fromhex_loop length].
    rewrite Ha1, Ha2, Hascii, Hs1, H1, H2, Hloop, Hlen, Hfmt.
    repeat split. lia.
Qed.

(** X4. [array_to_string] and [bytearray.fromhex] are inverse on bytes:
    the string has two characters per byte and reads back as the same
    bytes.  Hence the string [main] prints for a 16-byte UUID is accepted
    by [set_uuid], which stores those bytes. *)
Theorem array_to_string_fromhex (b_array : list Z) (g : Globals)
    (u : UuidGlobals) :
  Forall is_byte b_array ->
  String.length (array_to_string b_array) = (2 * length b_array)%nat
  /\ fromhex (array_to_string b_array) = Ok b_array
  /\ (length b_array = 16%nat ->
      set_uuid (array_to_string b_array) g u
      = (g, mkUuidGlobals (Some b_array) true, Return)).
Proof.
  intros Hb.
  destruct (fromhex_array_chars b_array Hb) as (Hascii & Hloop & Hlen).
  assert (Hchars : list_ascii_of_string (array_to_string b_array)
                   = flat_map (fun b => list_ascii_of_string (format_02x b))
                       b_array)
    by (unfold array_to_string; apply array_to_string_loop_chars).
  assert (Hl : String.length (array_to_string b_array)
               = (2 * length b_array)%nat)
    by (rewrite <- length_list_ascii, Hchars; exact Hlen).
  assert (Hf : fromhex (array_to_string b_array) = Ok b_array)
    by (unfold fromhex; rewrite Hchars, Hascii; exact Hloop).
  split; [exact Hl |]. split; [exact Hf |].
  intros H16. unfold set_uuid. rewrite Hl, H16, Hf. reflexivity.
Qed.

Lemma array_to_string_fromhex_witness :
  String.length (array_to_string [10; 1; 2; 3; 4; 5; 6; 7; 8; 9; 10; 11; 12;
                                  13; 14; 15])
  = (2 * 16)%nat
  /\ fromhex (array_to_string [10; 1; 2; 3; 4; 5; 6; 7; 8; 9; 10; 11; 12;
                               13; 14; 15])
     = Ok [10; 1; 2; 3; 4; 5; 6; 7; 8; 9; 10; 11; 12; 13; 14; 15]
  /\ (length [10; 1; 2; 3; 4; 5; 6; 7; 8; 9; 10; 11; 12; 13; 14; 15]
      = 16%nat ->
      set_uuid (array_to_string [10; 1; 2; 3; 4; 5; 6; 7; 8; 9; 10; 11; 12;
                                 13; 14; 15])
        (initial_globals None) initial_uuid_globals
      = (initial_globals None,
         mkUuidGlobals (Some [10; 1; 2; 3; 4; 5; 6; 7; 8; 9; 10; 11; 12;
                              13; 14; 15]) true,
         Return)).
Proof.
  apply (array_to_string_fromhex
           [10; 1; 2; 3; 4; 5; 6; 7; 8; 9; 10; 11; 12; 13; 14; 15]
           (initial_globals None) initial_uuid_globals).
  repeat constructor; unfold is_byte; lia.
Defined.

(** The bytes [main] starts from spell the literal in the source again. *)
Example array_to_string_main_uuid :
  array_to_string [10; 1; 2; 3; 4; 5; 6; 7; 8; 9; 10; 11; 12; 13; 14; 15]
  = "0a0102030405060708090a0b0c0d0e0f"
  /\ fromhex "0a0102030405060708090A0B0C0D0E0F"
     = Ok [10; 1; 2; 3; 4; 5; 6; 7; 8; 9; 10; 11; 12; 13; 14; 15].
Proof. split; reflexivity. Qed.

(** ** The registry: lookup, registration lists, invariants *)

Lemma _get_sig_models_loop_spec (ms : list Model) :
  forall mods,
    _get_sig_models_loop ms mods
    = mods ++ map (fun m => (get_id m, [] : Options))
                  (List.filter (fun m => get_vendor m =? VENDOR_ID_NONE) ms).
Proof.
  induction ms as [| m rest IH]; intros mods; simpl.
  - rewrite List.app_nil_r. reflexivity.
  - destruct (get_vendor m =? VENDOR_ID_NONE); rewrite IH;
      [rewrite <- List.app_assoc |]; reflexivity.
Qed.

Lemma _get_v_models_loop_spec (ms : list Model) :
  forall mods,
    _get_v_models_loop ms mods
    = mods ++ map (fun m => (get_vendor m, get_id m, [] : Options))
                  (List.filter
                     (fun m => negb (get_vendor m =? VENDOR_ID_NONE)) ms).
Proof.
  induction ms as [| m rest IH]; intros mods; simpl.
  - rewrite List.app_nil_r. reflexivity.
  - destruct (get_vendor m =? VENDOR_ID_NONE); simpl; rewrite IH;
      [| rewrite <- List.app_assoc]; reflexivity.
Qed.

Lemma filter_split_length {A : Type} (f : A -> bool) (l : list A) :
  (length (List.filter f l) + length (List.filter (fun x => negb (f x)) l))%nat
  = length l.
Proof.
  induction l as [| x l IH]; simpl; [reflexivity |].
  destruct (f x); simpl; lia.
Qed.

(** X5. The two lists an element reports for registration split its
    models by vendor id: the standard list holds, in registration order,
    the ids of the models whose vendor is [VENDOR_ID_NONE], the vendor
    list the (vendor, id) pairs of all others; every model is in exactly
    one of them. *)
Theorem registration_lists_partition (self : Element) :
  _get_sig_models self
  = map (fun m => (get_id m, [] : Options))
        (List.filter (fun m => get_vendor m =? VENDOR_ID_NONE) (models self))
  /\ _get_v_models self
     = map (fun m => (get_vendor m, get_id m, [] : Options))
           (List.filter (fun m => negb (get_vendor m =? VENDOR_ID_NONE))
              (models self))
  /\ (length (_get_sig_models self) + length (_get_v_models self))%nat
     = length (models self).
Proof.
  unfold _get_sig_models, _get_v_models.
  rewrite _get_sig_models_loop_spec, _get_v_models_loop_spec. simpl.
  repeat split. rewrite !length_map. apply filter_split_length.
Qed.

Lemma get_element_from_some (els : list Element) :
  forall (p0 : nat) (idx : Z) (p : nat) (e : Element),
    get_element_from p0 els idx = Some (p, e) <->
    exists k, p = (p0 + k)%nat /\ els !! k = Some e /\ get_index e = idx
              /\ forall j e', (j < k)%nat -> els !! j = Some e' ->
                              get_index e' <> idx.
Proof.
  induction els as [| x els IH]; intros p0 idx p e; simpl.
  - split; [discriminate | intros (k & _ & Hk & _); discriminate].
  - destruct (Z.eqb_spec (get_index x) idx) as [E | E].
    + split.
      * intros H. injection H as <- <-. exists 0%nat.
        repeat split; [lia | exact E | intros; lia].
      * intros (k & -> & Hk & Hidx & Hfirst).
        destruct k as [| k].
        -- simpl in Hk. injection Hk as <-. f_equal. f_equal. lia.
        -- exfalso. apply (Hfirst 0%nat x); [lia | reflexivity | exact E].
    + rewrite IH. split.
      * intros (k & -> & Hk & Hidx & Hfirst). exists (S k).
        repeat split; [lia | exact Hk | exact Hidx |].
        intros j e' Hj Hl. destruct j as [| j].
        -- simpl in Hl. injection Hl as <-. exact E.
        -- apply (Hfirst j e'); [lia | exact Hl].
      * intros (k & -> & Hk & Hidx & Hfirst).
        destruct k as [| k].
        -- simpl in Hk. injection Hk as <-. contradiction.
        -- exists k. repeat split; [lia | exact Hk | exact Hidx |].
           intros j e' Hj Hl. apply (Hfirst (S j) e'); [lia | exact Hl].
Qed.

Lemma get_element_from_none (els : list Element) :
  forall (p0 : nat) (idx : Z),
    get_element_from p0 els idx = None <->
    Forall (fun e => get_index e <> idx) els.
Proof.
  induction els as [| x els IH]; intros p0 idx; simpl.
  - split; [constructor | reflexivity].
  - destruct (Z.eqb_spec (get_index x) idx) as [E | E].
    + split; [discriminate |].
      intros H. inversion H; subst. contradiction.
    + rewrite IH. split.
      * intros H. constructor; assumption.
      * intros H. inversion H; subst. assumption.
Qed.

(** X6. [get_element] returns the first element carrying the index:
    the result sits at the returned position, has that index, and no
    element before it has; it returns [None] exactly when no registered
    element has the index. *)
Theorem get_element_first_match (els : list Element) (idx : Z) :
  (forall p e,
      get_element els idx = Some (p, e) <->
      els !! p = Some e /\ get_index e = idx
      /\ forall j e', (j < p)%nat -> els !! j = Some e' ->
                      get_index e' <> idx)
  /\ (get_element els idx = None <->
      Forall (fun e => get_index e <> idx) els).
Proof.
  unfold get_element. split.
  - intros p e. rewrite get_element_from_some. split.
    + intros (k & -> & H). exact H.
    + intros H. exists p. split; [reflexivity | exact H].
  - apply get_element_from_none.
Qed.

Lemma get_element_from_app (els : list Element) :
  forall (p0 : nat) (more : list Element) (idx : Z),
    get_element_from p0 (els ++ more) idx
    = match get_element_from p0 els idx with
      | Some r => Some r
      | None => get_element_from (p0 + length els) more idx
      end.
Proof.
  induction els as [| x els IH]; intros p0 more idx; simpl.
  - rewrite Nat.add_0_r. reflexivity.
  - destruct (get_index x =? idx); [reflexivity |].
    rewrite IH. rewrite Nat.add_succ_r. reflexivity.
Qed.

(** X7. [add_element] does not check for a duplicate index: it always
    appends.  A lookup that succeeded before gives the same result
    after; the new element is found, at the last position, only under an
    index no earlier element has - an element added under a taken index
    can never be looked up. *)
Theorem add_element_get_element (element : Element) (w : World) (idx : Z) :
  elements (add_element element w) = elements w ++ [element]
  /\ get_element (elements (add_element element w)) idx
     = match get_element (elements w) idx with
       | Some r => Some r
       | None =>
           if get_index element =? idx
           then Some (length (elements w), element)
           else None
       end.
Proof.
  split; [reflexivity |].
  unfold get_element, add_element. cbn [elements].
  rewrite get_element_from_app. reflexivity.
Qed.

(** Two elements registered under index 0: the second one is shadowed. *)
Example duplicate_index_is_shadowed :
  let e1 := add_model (MyVendor___init__ 1) (Element___init__ 0) in
  let e2 := add_model (Model___init__ 2) (Element___init__ 0) in
  let w := add_element e2 (add_element e1 (mkWorld [] [] (initial_globals None))) in
  length (elements w) = 2%nat
  /\ get_element (elements w) 0 = Some (0%nat, e1).
Proof. split; reflexivity. Qed.

(** A relation between a model before and after [set_config] that is
    reflexive and transitive carries over to everything that applies
    configurations to the registry. *)

Lemma Forall2_diag {A : Type} (R : A -> A -> Prop) (l : list A) :
  (forall x, R x x) -> Forall2 R l l.
Proof. intros Hr. induction l; constructor; auto. Qed.

Lemma Forall2_chain {A : Type} (R : A -> A -> Prop) (l k m : list A) :
  (forall a b c, R a b -> R b c -> R a c) ->
  Forall2 R l k -> Forall2 R k m -> Forall2 R l m.
Proof.
  intros Ht Hlk. revert m.
  induction Hlk as [| x y l k Hxy _ IH]; intros m Hkm;
    inversion Hkm; subst; constructor; eauto.
Qed.

Section RegistryRelation.
Variable Rm : Model -> Model -> Prop.
Hypothesis Rm_refl : forall m, Rm m m.
Hypothesis Rm_trans : forall a b c, Rm a b -> Rm b c -> Rm a c.
Hypothesis Rm_set_config :
  forall r m config ths g,
    Rm m (fst (fst (fst (set_config r m config ths g)))).

Lemma element_rel_refl (e : Element) : element_rel Rm e e.
Proof. repeat split. apply Forall2_diag. exact Rm_refl. Qed.

Lemma element_rel_trans (a b c : Element) :
  element_rel Rm a b -> element_rel Rm b c -> element_rel Rm a c.
Proof.
  intros (Hp1 & Hi1 & Hm1) (Hp2 & Hi2 & Hm2). repeat split.
  - congruence.
  - congruence.
  - exact (Forall2_chain Rm _ _ _ Rm_trans Hm1 Hm2).
Qed.

Lemma registry_rel_refl (els : list Element) : registry_rel Rm els els.
Proof. apply Forall2_diag. exact element_rel_refl. Qed.

Lemma registry_rel_trans (a b c : list Element) :
  registry_rel Rm a b -> registry_rel Rm b c -> registry_rel Rm a c.
Proof. apply Forall2_chain. exact element_rel_trans. Qed.

Lemma registry_rel_insert (els : list Element) (pos : nat)
    (e e' : Element) :
  els !! pos = Some e ->
  element_rel Rm e e' ->
  registry_rel Rm els (<[pos:=e']> els).
Proof.
  intros Hl He. unfold registry_rel.
  rewrite <- (list_insert_id els pos e Hl) at 1.
  apply Forall2_insert; [apply registry_rel_refl | exact He].
Qed.

Lemma update_model_config_loop_rel (el_pos : nat) (ms : list Model) :
  forall (pos : nat) (id : Z) (config : Config)
         (ths : list (Timer TimerId)) (g : Globals),
    Forall2 Rm ms
      (fst (fst (fst (update_model_config_loop el_pos pos ms id config ths g)))).
Proof.
  induction ms as [| model rest IH]; intros pos id config ths g.
  - constructor.
  - simpl. destruct (id =? get_id model).
    + pose proof (Rm_set_config (el_pos, pos) model config ths g) as Hs.
      destruct (set_config _ _ _ _ _) as [[[m t] g1] o]. simpl in *.
      constructor; [exact Hs | apply Forall2_diag; exact Rm_refl].
    + specialize (IH (S pos) id config ths g).
      destruct (update_model_config_loop _ _ _ _ _ _ _) as [[[m t] g1] o].
      simpl in *. constructor; [apply Rm_refl | exact IH].
Qed.

Lemma update_model_config_rel (el_pos : nat) (self : Element) (id : Z)
    (config : Config) (ths : list (Timer TimerId)) (g : Globals) :
  element_rel Rm self
    (fst (fst (fst (update_model_config el_pos self id config ths g)))).
Proof.
  unfold update_model_config.
  pose proof (update_model_config_loop_rel el_pos (models self) 0 id config
                ths g) as Hl.
  destruct (update_model_config_loop _ _ _ _ _ _ _) as [[[m t] g1] o].
  repeat split. exact Hl.
Qed.

Lemma set_model_config_rel (el_pos : nat) (configs : list (Z * Config)) :
  forall (self : Element) (ths : list (Timer TimerId)) (g : Globals),
    element_rel Rm self
      (fst (fst (fst (set_model_config el_pos self configs ths g)))).
Proof.
  induction configs as [| [mod_id config] rest IH]; intros self ths g.
  - apply element_rel_refl.
  - simpl.
    pose proof (update_model_config_rel el_pos self mod_id config ths g)
      as Hu.
    destruct (update_model_config _ _ _ _ _ _) as [[[s1 t1] g1] [| e]];
      simpl in *; [| exact Hu].
    exact (element_rel_trans _ _ _ Hu (IH s1 t1 g1)).
Qed.

Lemma attach_app_cb_loop_rel
    (els : list (Byte.byte * list (Z * Config))) :
  forall w : World,
    registry_rel Rm (elements w) (elements (fst (attach_app_cb_loop els w))).
Proof.
  induction els as [| [b mods] rest IH]; intros w.
  - apply registry_rel_refl.
  - simpl.
    destruct (get_element (elements w) (unpack_b b))
      as [[pos element] |] eqn:Hget; [| apply registry_rel_refl].
    assert (Hl : elements w !! pos = Some element).
    { unfold get_element in Hget.
      apply get_element_from_some in Hget as (k & -> & Hk & _). exact Hk. }
    pose proof (set_model_config_rel pos mods element (threads w) (glob w))
      as Hs.
    destruct (set_model_config _ _ _ _ _) as [[[e1 t1] g1] o]. simpl in Hs.
    pose proof (registry_rel_insert _ _ _ _ Hl Hs) as Hins.
    destruct o as [| e]; [| exact Hins].
    exact (registry_rel_trans _ _ _ Hins
             (IH (mkWorld (<[pos:=e1]> (elements w)) t1 g1))).
Qed.

Lemma UpdateModelConfiguration_rel (el_pos : nat) (id : Z)
    (config : Config) (w : World) :
  registry_rel Rm (elements w)
    (elements (fst (UpdateModelConfiguration el_pos id config w))).
Proof.
  unfold UpdateModelConfiguration.
  destruct (elements w !! el_pos) as [element |] eqn:Hel;
    [| apply registry_rel_refl].
  pose proof (update_model_config_rel el_pos element id config (threads w)
                (glob w)) as Hu.
  destruct (update_model_config _ _ _ _ _ _) as [[[e1 t1] g1] o].
  simpl in *. exact (registry_rel_insert _ _ _ _ Hel Hu).
Qed.

(** Writing a scheduler back after a tick. *)
Lemma put_timer_rel (id : TimerId) (t : ModTimer Callback)
    (els : list Element) :
  (forall m, model_at (fst id) els = Some m -> Rm m (put_slot (snd id) t m)) ->
  registry_rel Rm els (put_timer id t els).
Proof.
  intros Hput. unfold put_timer, registry_rel.
  apply Forall2_alter_r; [apply registry_rel_refl |].
  intros e e' He He' _. rewrite He in He'. injection He' as <-.
  repeat split. simpl.
  apply Forall2_alter_r; [apply Forall2_diag; exact Rm_refl |].
  intros m m' Hm Hm' _. rewrite Hm in Hm'. injection Hm' as <-.
  apply Hput. unfold model_at. rewrite He. exact Hm.
Qed.
End RegistryRelation.

(** *** Identity of elements and models *)

Lemma MyVendor_set_publication_identity (r : ModelRef) (self : Model)
    (mv : MyVendorFields) (period : Z) (ths : list (Timer TimerId))
    (g : Globals) :
  my_vendor self = Some mv ->
  model_identity
    (fst (fst (fst (MyVendor_set_publication r self mv period ths g))))
  = model_identity self.
Proof.
  intros Hmv. unfold MyVendor_set_publication, model_identity.
  destruct (period =? 0).
  { destruct (cancel (pub_timer mv) ths); simpl. rewrite Hmv. reflexivity. }
  destruct (period <? 1000); [reflexivity |].
  destruct (scan_txt g) as [[| line lines] |]; cbv beta iota zeta;
    try reflexivity.
  destruct (scan_new (line :: lines) (line :: lines) (scanned g))
    as [sc [| e]]; cbv beta iota zeta; [| reflexivity].
  destruct sc; [reflexivity |].
  destruct (start _ _ _ _ _); simpl. rewrite Hmv. reflexivity.
Qed.

Lemma set_config_identity (r : ModelRef) (self : Model) (config : Config)
    (ths : list (Timer TimerId)) (g : Globals) :
  same_identity self (fst (fst (fst (set_config r self config ths g)))).
Proof.
  unfold same_identity, set_config.
  set (self1 := match Bindings config with
                | Some b => set_bindings b self
                | None => self
                end).
  assert (Hb : model_identity self1 = model_identity self)
    by (subst self1; destruct (Bindings config); reflexivity).
  destruct (PublicationPeriod config) as [period |].
  - unfold set_publication.
    destruct (my_vendor self1) as [mv |] eqn:Hmv.
    + pose proof (MyVendor_set_publication_identity r self1 mv period ths g
                    Hmv) as Hi.
      destruct (MyVendor_set_publication _ _ _ _ _ _) as [[[m t] g1] [| e]];
        simpl in *; [destruct (Subscriptions config) |]; simpl; congruence.
    + destruct (Subscriptions config); simpl; rewrite <- Hb;
        unfold model_identity, Model_set_publication; simpl;
        rewrite Hmv; reflexivity.
  - destruct (Subscriptions config); simpl; exact Hb.
Qed.

Lemma put_slot_identity (s : Slot) (t : ModTimer Callback) (m : Model) :
  same_identity m (put_slot s t m).
Proof.
  unfold same_identity, put_slot, model_identity.
  destruct s; destruct (my_vendor m) eqn:Hmv; simpl; rewrite ?Hmv;
    reflexivity.
Qed.

Lemma same_identity_trans (a b c : Model) :
  same_identity a b -> same_identity b c -> same_identity a c.
Proof. unfold same_identity. congruence. Qed.

Lemma registry_rel_shape (els els' : list Element) :
  registry_rel same_identity els els' ->
  map (fun el => (Element_path el, index el,
                  map model_identity (models el))) els'
  = map (fun el => (Element_path el, index el,
                    map model_identity (models el))) els.
Proof.
  induction 1 as [| e e' els els' (Hp & Hi & Hm) _ IH]; [reflexivity |].
  simpl. rewrite IH, Hp, Hi. do 2 f_equal.
  clear -Hm. induction Hm as [| m m' ms ms' Hmm _ IHm]; [reflexivity |].
  simpl. rewrite IHm, Hmm. reflexivity.
Qed.

Lemma Timer_run_shape (i : nat) (w : World) :
  registry_rel same_identity (elements w) (elements (fst (Timer_run i w))).
Proof.
  unfold Timer_run.
  pose proof (registry_rel_refl same_identity (fun _ => eq_refl) (elements w))
    as Hrefl.
  destruct (threads w !! i) as [th |]; [| exact Hrefl].
  destruct (status th); try exact Hrefl.
  destruct (interval th); [| exact Hrefl].
  destruct (timer_at (target th) (elements w)) as [mt |]; [| exact Hrefl].
  destruct (_timeout_cb _ _ _ _ _) as [[[mt1 ths1] g1] o]. simpl.
  apply (put_timer_rel same_identity (fun _ => eq_refl)).
  intros m _. apply put_slot_identity.
Qed.

Lemma step_shape (w w' : World) :
  step w w' -> registry_shape w' = registry_shape w.
Proof.
  intros Hstep. unfold registry_shape. destruct Hstep.
  - reflexivity.
  - apply registry_rel_shape. unfold attach_app_cb.
    apply (attach_app_cb_loop_rel same_identity (fun _ => eq_refl)
             same_identity_trans set_config_identity dict_array
             (set_glob _ w)).
  - apply registry_rel_shape.
    apply (UpdateModelConfiguration_rel same_identity (fun _ => eq_refl)
             set_config_identity).
  - apply registry_rel_shape. apply Timer_run_shape.
  - reflexivity.
Qed.

Lemma reachable_shape (w w' : World) :
  rtc step w w' -> registry_shape w' = registry_shape w.
Proof.
  induction 1 as [| x y z Hxy _ IH]; [reflexivity |].
  rewrite IH. exact (step_shape _ _ Hxy).
Qed.

(** X8. Nothing that happens after [main] has built the registry -
    joining, attaching, configuration updates, publication ticks,
    removal - adds, drops or reorders an element or a model, or changes
    an element's path or index or a model's opcodes, id, vendor, path or
    class. *)
Theorem registry_shape_invariant (w w' : World) :
  rtc step w w' -> registry_shape w' = registry_shape w.
Proof.
  intros Hreach. induction Hreach as [| x y z Hxy _ IH]; [reflexivity |].
  rewrite IH. destruct Hxy.
  - reflexivity.
  - apply registry_rel_shape. unfold attach_app_cb.
    apply (attach_app_cb_loop_rel same_identity (fun _ => eq_refl)
             same_identity_trans set_config_identity dict_array
             (set_glob _ w)).
  - apply registry_rel_shape.
    apply (UpdateModelConfiguration_rel same_identity (fun _ => eq_refl)
             set_config_identity).
  - apply registry_rel_shape. apply Timer_run_shape.
  - reflexivity.
Qed.

Lemma registry_shape_invariant_witness :
  rtc step sample_world
    (fst (Timer_run 0
            (fst (attach_app_cb "/org/bluez/mesh/node0" [] armed_world))))
  /\ registry_shape
       (fst (Timer_run 0
               (fst (attach_app_cb "/org/bluez/mesh/node0" [] armed_world))))
     = registry_shape sample_world.
Proof.
  assert (H : rtc step sample_world
                (fst (Timer_run 0
                        (fst (attach_app_cb "/org/bluez/mesh/node0" []
                                armed_world))))).
  { eapply rtc_l;
      [exact (step_configure 0 1 (sample_config 2000) sample_world) |].
    eapply rtc_l;
      [exact (step_attach "/org/bluez/mesh/node0" [] armed_world) |].
    apply rtc_once. apply step_tick. }
  split; [exact H | exact (registry_shape_invariant _ _ H)].
Defined.

(** X9. The registry [main] builds has the single element index 0, and
    that never changes: in every state the application can reach, an
    attach completion whose first entry carries any other index byte
    raises [AttributeError] before any model is configured or any timer
    started. *)
Theorem reachable_attach_other_index_raises (arg : option string)
    (scan : option (list string)) (net : Res string) (w : World)
    (node_path : string) (b : Byte.byte) (mods : list (Z * Config))
    (rest : list (Byte.byte * list (Z * Config))) :
  rtc step (main_setup arg scan net) w ->
  unpack_b b <> 0 ->
  snd (attach_app_cb node_path ((b, mods) :: rest) w) = Raised AttributeError
  /\ elements (fst (attach_app_cb node_path ((b, mods) :: rest) w))
     = elements w
  /\ threads (fst (attach_app_cb node_path ((b, mods) :: rest) w))
     = threads w.
Proof.
  intros Hreach Hb.
  pose proof (reachable_shape _ _ Hreach) as Hshape.
  assert (Hnone : get_element (elements w) (unpack_b b) = None).
  { apply get_element_from_none.
    unfold registry_shape in Hshape. cbn in Hshape.
    destruct (elements w) as [| e [| e2 els]]; try discriminate.
    injection Hshape as _ Hidx _.
    constructor; [| constructor]. unfold get_index. congruence. }
  unfold attach_app_cb. cbn [attach_app_cb_loop set_glob elements].
  rewrite Hnone. repeat split.
Qed.

Lemma reachable_attach_other_index_raises_witness :
  rtc step (main_setup None (Some sample_scan) (Ok "/org/bluez/mesh"))
    armed_world
  /\ unpack_b Byte.xff <> 0
  /\ snd (attach_app_cb "/org/bluez/mesh/node0"
            [(Byte.xff, [(1, sample_config 0)])] armed_world)
     = Raised AttributeError.
Proof.
  assert (H : rtc step (main_setup None (Some sample_scan)
                          (Ok "/org/bluez/mesh")) armed_world).
  { apply rtc_once.
    exact (step_configure 0 1 (sample_config 2000) sample_world). }
  assert (Hb : unpack_b Byte.xff <> 0) by (vm_compute; discriminate).
  split; [exact H |]. split; [exact Hb |].
  exact (proj1 (reachable_attach_other_index_raises None (Some sample_scan)
                  (Ok "/org/bluez/mesh") armed_world "/org/bluez/mesh/node0"
                  Byte.xff [(1, sample_config 0)] [] H Hb)).
Defined.

(** *** The scheduler [t_timer] and the owners of the timers *)

Lemma MyVendor_set_publication_t_timer (r : ModelRef) (self : Model)
    (mv : MyVendorFields) (period : Z) (ths : list (Timer TimerId))
    (g : Globals) :
  my_vendor self = Some mv ->
  t_timer mv = ModTimer___init__ ->
  t_timer_unused
    (fst (fst (fst (MyVendor_set_publication r self mv period ths g)))).
Proof.
  intros Hmv Ht.
  assert (Hsame : t_timer_unused (set_pub_period period self)).
  { intros mv' Hmv'. simpl in Hmv'. rewrite Hmv in Hmv'.
    injection Hmv' as <-. exact Ht. }
  unfold MyVendor_set_publication.
  destruct (period =? 0).
  { destruct (cancel (pub_timer mv) ths) as [pt ths1]. simpl.
    intros mv' Hmv'. injection Hmv' as <-. exact Ht. }
  destruct (period <? 1000); [exact Hsame |].
  destruct (scan_txt g) as [[| line lines] |]; cbv beta iota zeta;
    try exact Hsame.
  destruct (scan_new (line :: lines) (line :: lines) (scanned g))
    as [sc [| e]]; cbv beta iota zeta; [| exact Hsame].
  destruct sc; [exact Hsame |].
  destruct (start _ _ _ _ _) as [pt ths1]. simpl.
  intros mv' Hmv'. injection Hmv' as <-. exact Ht.
Qed.

Lemma set_config_t_timer (r : ModelRef) (self : Model) (config : Config)
    (ths : list (Timer TimerId)) (g : Globals) :
  keeps_t_timer self (fst (fst (fst (set_config r self config ths g)))).
Proof.
  unfold keeps_t_timer, set_config. intros Hunused.
  set (self1 := match Bindings config with
                | Some b => set_bindings b self
                | None => self
                end).
  assert (Hunused1 : t_timer_unused self1)
    by (subst self1; destruct (Bindings config); exact Hunused).
  destruct (PublicationPeriod config) as [period |].
  - unfold set_publication.
    destruct (my_vendor self1) as [mv |] eqn:Hmv.
    + pose proof (MyVendor_set_publication_t_timer r self1 mv period ths g
                    Hmv (Hunused1 mv Hmv)) as Hi.
      destruct (MyVendor_set_publication _ _ _ _ _ _) as [[[m t] g1] [| e]];
        simpl in *; [destruct (Subscriptions config) |]; exact Hi.
    + assert (Hn : t_timer_unused (Model_set_publication period self1)).
      { intros mv Hc. simpl in Hc. congruence. }
      destruct (Subscriptions config); exact Hn.
  - destruct (Subscriptions config); exact Hunused1.
Qed.

Lemma Timer_run_t_timer (i : nat) (w : World) :
  registry_rel keeps_t_timer (elements w) (elements (fst (Timer_run i w))).
Proof.
  unfold Timer_run.
  pose proof (registry_rel_refl keeps_t_timer (fun _ H => H) (elements w))
    as Hrefl.
  destruct (threads w !! i) as [th |]; [| exact Hrefl].
  destruct (status th); try exact Hrefl.
  destruct (interval th); [| exact Hrefl].
  destruct (timer_at (target th) (elements w)) as [mt |] eqn:Hat;
    [| exact Hrefl].
  assert (Hnofunc : func mt = None ->
                    fst (fst (fst (_timeout_cb (run_callback (elements w))
                                     (target th) mt (threads w) (glob w))))
                    = mt)
    by (intros Hf; unfold _timeout_cb; rewrite Hf; reflexivity).
  destruct (_timeout_cb _ _ _ _ _) as [[[mt1 ths1] g1] o]. simpl in *.
  apply (put_timer_rel keeps_t_timer (fun _ H => H)).
  intros m Hm Hunused mv' Hmv'.
  unfold timer_at in Hat. rewrite Hm in Hat.
  unfold timer_of_slot in Hat. unfold put_slot in Hmv'.
  destruct (snd (target th)).
  - simpl in Hmv'. exact (Hunused mv' Hmv').
  - destruct (my_vendor m) as [mv |] eqn:Hmv; [| discriminate].
    simpl in Hmv'. injection Hmv' as <-. simpl. exact (Hunused mv Hmv).
  - destruct (my_vendor m) as [mv |] eqn:Hmv; [| discriminate].
    pose proof (Hunused mv Hmv) as Ht.
    simpl in Hat, Hmv'. injection Hat as <-. injection Hmv' as <-. simpl.
    rewrite Hnofunc; [exact Ht |]. rewrite Ht. reflexivity.
Qed.

Lemma step_t_timer (w w' : World) :
  step w w' -> registry_rel keeps_t_timer (elements w) (elements w').
Proof.
  intros Hstep. destruct Hstep.
  - apply (registry_rel_refl keeps_t_timer (fun _ H => H)).
  - unfold attach_app_cb.
    apply (attach_app_cb_loop_rel keeps_t_timer (fun _ H => H)
             (fun a b c Hab Hbc Ha => Hbc (Hab Ha)) set_config_t_timer
             dict_array (set_glob _ w)).
  - apply (UpdateModelConfiguration_rel keeps_t_timer (fun _ H => H)
             set_config_t_timer).
  - apply Timer_run_t_timer.
  - apply (registry_rel_refl keeps_t_timer (fun _ H => H)).
Qed.

Lemma registry_rel_t_timer (els els' : list Element) :
  registry_rel keeps_t_timer els els' ->
  Forall (fun el => Forall t_timer_unused (models el)) els ->
  Forall (fun el => Forall t_timer_unused (models el)) els'.
Proof.
  induction 1 as [| e e' els els' (_ & _ & Hm) _ IH]; intros Hall.
  - constructor.
  - inversion Hall as [| ? ? He Hrest]; subst.
    constructor; [| exact (IH Hrest)].
    clear -Hm He. induction Hm as [| m m' ms ms' Hmm _ IHm].
    + constructor.
    + inversion He; subst. constructor; [apply Hmm | apply IHm]; assumption.
Qed.

(** The timers: [cancel] and the end of a thread keep a timer's owner,
    and new timers are made for a [pub_timer]. *)

Lemma publication_timers_alter (f : Timer TimerId -> Timer TimerId)
    (i : nat) (ths : list (Timer TimerId)) :
  (forall t, target (f t) = target t) ->
  publication_timers ths -> publication_timers (alter f i ths).
Proof.
  intros Hf Hall. unfold publication_timers.
  apply Forall_alter; [exact Hall |].
  intros t _ Ht. rewrite Hf. exact Ht.
Qed.

Lemma Timer_cancel_target (t : Timer TimerId) :
  target (Timer_cancel t) = target t.
Proof. unfold Timer_cancel. destruct (status t); reflexivity. Qed.

Lemma MyVendor_set_publication_timers (r : ModelRef) (self : Model)
    (mv : MyVendorFields) (period : Z) (ths : list (Timer TimerId))
    (g : Globals) :
  publication_timers ths ->
  publication_timers
    (snd (fst (fst (MyVendor_set_publication r self mv period ths g)))).
Proof.
  intros Hall. unfold MyVendor_set_publication.
  destruct (period =? 0).
  { unfold cancel. destruct (thread (pub_timer mv)); simpl; [| exact Hall].
    apply publication_timers_alter; [exact Timer_cancel_target | exact Hall]. }
  destruct (period <? 1000); [exact Hall |].
  destruct (scan_txt g) as [[| line lines] |]; cbv beta iota zeta;
    try exact Hall.
  destruct (scan_new (line :: lines) (line :: lines) (scanned g))
    as [sc [| e]]; cbv beta iota zeta; [| exact Hall].
  destruct sc; [exact Hall |].
  unfold start, _schedule_timer. simpl.
  destruct (negb (busy (pub_timer mv))); simpl; [| exact Hall].
  apply Forall_app. split; [exact Hall | repeat constructor].
Qed.

Lemma set_config_timers (r : ModelRef) (self : Model) (config : Config)
    (ths : list (Timer TimerId)) (g : Globals) :
  publication_timers ths ->
  publication_timers (snd (fst (fst (set_config r self config ths g)))).
Proof.
  intros Hall. unfold set_config.
  destruct (PublicationPeriod config) as [period |].
  - unfold set_publication.
    destruct (my_vendor _) as [mv |].
    + pose proof (MyVendor_set_publication_timers r
                    match Bindings config with
                    | Some b => set_bindings b self
                    | None => self
                    end mv period ths g Hall) as Hs.
      destruct (MyVendor_set_publication _ _ _ _ _ _) as [[[m t] g1] [| e]];
        simpl in *; [destruct (Subscriptions config) |]; exact Hs.
    + destruct (Subscriptions config); exact Hall.
  - destruct (Subscriptions config); exact Hall.
Qed.

Lemma update_model_config_loop_timers (el_pos : nat) (ms : list Model) :
  forall (pos : nat) (id : Z) (config : Config)
         (ths : list (Timer TimerId)) (g : Globals),
    publication_timers ths ->
    publication_timers
      (snd (fst (fst (update_model_config_loop el_pos pos ms id config ths g)))).
Proof.
  induction ms as [| model rest IH]; intros pos id config ths g Hall.
  - exact Hall.
  - simpl. destruct (id =? get_id model).
    + pose proof (set_config_timers (el_pos, pos) model config ths g Hall)
        as Hs.
      destruct (set_config _ _ _ _ _) as [[[m t] g1] o]. exact Hs.
    + specialize (IH (S pos) id config ths g Hall).
      destruct (update_model_config_loop _ _ _ _ _ _ _) as [[[m t] g1] o].
      exact IH.
Qed.

Lemma update_model_config_timers (el_pos : nat) (self : Element) (id : Z)
    (config : Config) (ths : list (Timer TimerId)) (g : Globals) :
  publication_timers ths ->
  publication_timers
    (snd (fst (fst (update_model_config el_pos self id config ths g)))).
Proof.
  intros Hall. unfold update_model_config.
  pose proof (update_model_config_loop_timers el_pos (models self) 0 id
                config ths g Hall) as Hl.
  destruct (update_model_config_loop _ _ _ _ _ _ _) as [[[m t] g1] o].
  exact Hl.
Qed.

Lemma set_model_config_timers (el_pos : nat) (configs : list (Z * Config)) :
  forall (self : Element) (ths : list (Timer TimerId)) (g : Globals),
    publication_timers ths ->
    publication_timers
      (snd (fst (fst (set_model_config el_pos self configs ths g)))).
Proof.
  induction configs as [| [mod_id config] rest IH]; intros self ths g Hall.
  - exact Hall.
  - simpl.
    pose proof (update_model_config_timers el_pos self mod_id config ths g
                  Hall) as Hu.
    destruct (update_model_config _ _ _ _ _ _) as [[[s1 t1] g1] [| e]];
      simpl in *; [apply IH |]; exact Hu.
Qed.

Lemma attach_app_cb_loop_timers
    (els : list (Byte.byte * list (Z * Config))) :
  forall w : World,
    publication_timers (threads w) ->
    publication_timers (threads (fst (attach_app_cb_loop els w))).
Proof.
  induction els as [| [b mods] rest IH]; intros w Hall.
  - exact Hall.
  - simpl.
    destruct (get_element (elements w) (unpack_b b))
      as [[pos element] |]; [| exact Hall].
    pose proof (set_model_config_timers pos mods element (threads w) (glob w)
                  Hall) as Hs.
    destruct (set_model_config _ _ _ _ _) as [[[e1 t1] g1] o]. simpl in Hs.
    destruct o as [| e]; [| exact Hs].
    apply (IH (mkWorld (<[pos:=e1]> (elements w)) t1 g1)). exact Hs.
Qed.

Lemma step_timers (w w' : World) :
  step w w' ->
  publication_timers (threads w) -> publication_timers (threads w').
Proof.
  intros Hstep Hall. destruct Hstep.
  - exact Hall.
  - unfold attach_app_cb.
    apply (attach_app_cb_loop_timers dict_array (set_glob _ w)). exact Hall.
  - unfold UpdateModelConfiguration.
    destruct (elements w !! el_pos) as [element |]; [| exact Hall].
    pose proof (update_model_config_timers el_pos element id config
                  (threads w) (glob w) Hall) as Hu.
    destruct (update_model_config _ _ _ _ _ _) as [[[e1 t1] g1] o].
    exact Hu.
  - unfold Timer_run.
    destruct (threads w !! i) as [th |] eqn:Hth; [| exact Hall].
    destruct (status th); try exact Hall.
    destruct (interval th); [| exact Hall].
    destruct (timer_at (target th) (elements w)) as [mt |]; [| exact Hall].
    assert (Htarget : snd (target th) = slot_pub_timer)
      by exact (Forall_lookup_1 _ _ _ _ Hall Hth).
    unfold _timeout_cb.
    destruct (func mt) as [f |]; simpl;
      [| apply publication_timers_alter; [reflexivity | exact Hall]].
    destruct (run_callback (elements w) f (glob w)) as [g1 [| e]]; simpl;
      apply publication_timers_alter; try reflexivity; try exact Hall.
    apply Forall_app. split; [exact Hall |].
    constructor; [exact Htarget | constructor].
  - exact Hall.
Qed.

(** X10. The second scheduler of a vendor model, [t_timer], is dead: in
    every state the application can reach it is still the scheduler
    [__init__] made (nothing has started or cancelled it), and every
    timer ever created was created for a [pub_timer]. *)
Theorem reachable_t_timer_unused (arg : option string)
    (scan : option (list string)) (net : Res string) (w : World) :
  rtc step (main_setup arg scan net) w ->
  publication_timers (threads w)
  /\ forall r m mv,
       model_at r (elements w) = Some m ->
       my_vendor m = Some mv ->
       t_timer mv = ModTimer___init__.
Proof.
  intros Hreach.
  assert (Hgen : forall w0,
             rtc step w0 w ->
             publication_timers (threads w0)
             /\ Forall (fun el => Forall t_timer_unused (models el))
                  (elements w0) ->
             publication_timers (threads w)
             /\ Forall (fun el => Forall t_timer_unused (models el))
                  (elements w)).
  { clear. intros w0 Hr. induction Hr as [| x y z Hxy _ IH]; intros Hx.
    - exact Hx.
    - apply IH. destruct Hx as [Ht Hm]. split.
      + exact (step_timers _ _ Hxy Ht).
      + exact (registry_rel_t_timer _ _ (step_t_timer _ _ Hxy) Hm). }
  destruct (Hgen _ Hreach) as [Hths Hall].
  { split; [constructor |]. cbn.
    constructor; [| constructor]. constructor; [| constructor].
    intros mv Hmv. cbn in Hmv. injection Hmv as <-. reflexivity. }
  split; [exact Hths |].
  intros r m mv Hm Hmv. unfold model_at in Hm.
  destruct (elements w !! fst r) as [el |] eqn:Hel; [| discriminate].
  pose proof (Forall_lookup_1 _ _ _ _ Hall Hel) as Hms.
  exact (Forall_lookup_1 _ _ _ _ Hms Hm mv Hmv).
Qed.

Lemma reachable_t_timer_unused_witness :
  rtc step (main_setup None (Some sample_scan) (Ok "/org/bluez/mesh"))
    (fst (Timer_run 0
            (fst (attach_app_cb "/org/bluez/mesh/node0" [] armed_world))))
  /\ publication_timers
       (threads
          (fst (Timer_run 0
                  (fst (attach_app_cb "/org/bluez/mesh/node0" []
                          armed_world)))))
  /\ length
       (threads
          (fst (Timer_run 0
                  (fst (attach_app_cb "/org/bluez/mesh/node0" []
                          armed_world)))))
     = 2%nat.
Proof.
  assert (H : rtc step (main_setup None (Some sample_scan)
                          (Ok "/org/bluez/mesh"))
                (fst (Timer_run 0
                        (fst (attach_app_cb "/org/bluez/mesh/node0" []
                                armed_world))))).
  { eapply rtc_l;
      [exact (step_configure 0 1 (sample_config 2000) sample_world) |].
    eapply rtc_l;
      [exact (step_attach "/org/bluez/mesh/node0" [] armed_world) |].
    apply rtc_once. apply step_tick. }
  split; [exact H |]. split; [| reflexivity].
  exact (proj1 (reachable_t_timer_unused None (Some sample_scan)
                  (Ok "/org/bluez/mesh") _ H)).
Defined.

(** ** Configuration of a model: [set_config], [set_publication] and the
    scan file *)

Lemma try__outcome {A S : Type} (r : Res A) (s : S) (k : A -> S * outcome)
    (P : S * outcome -> Prop) :
  (forall a, r = Ok a -> P (k a)) ->
  (forall e, r = Raise e -> P (s, Raised e)) ->
  P (try_ r s k).
Proof. intros Hok Hraise. destruct r; simpl; auto. Qed.

Lemma getitem_raises {A : Type} (l : list A) (i : nat) (e : exn) :
  getitem l i = Raise e -> e = IndexError.
Proof. unfold getitem. destruct (l !! i); congruence. Qed.

Lemma dict_set_keys (k v : string) (d : dict) (x : string) :
  In x (dict_keys d) -> In x (dict_keys (dict_set k v d)).
Proof.
  unfold dict_keys. induction d as [| [k' v'] d IH]; simpl.
  - intros [].
  - destruct (String.eqb_spec k k') as [-> | Hne]; simpl; tauto.
Qed.

Lemma scan_result_ok_here (sc : dict) (o : outcome) :
  o = Return \/ o = Raised IndexError -> scan_result_ok sc (sc, o).
Proof. intros Ho. split; [exact Ho | auto]. Qed.

Lemma scan_result_ok_step (sc sc1 : dict) (r : dict * outcome) :
  (forall x, In x (dict_keys sc) -> In x (dict_keys sc1)) ->
  scan_result_ok sc1 r -> scan_result_ok sc r.
Proof. intros Hkeys [Ho Hk]. split; [exact Ho | auto]. Qed.

Lemma scan_chg_ok (tests : list string) (line : string) :
  forall sc, scan_result_ok sc (scan_chg tests line sc).
Proof.
  induction tests as [| test rest IH]; intros sc; cbn [scan_chg].
  - apply scan_result_ok_here. left. reflexivity.
  - destruct (contains "[CHG]" test); [| apply IH].
    repeat (apply try__outcome;
            [intros ? _
            | intros e He; apply getitem_raises in He; subst e;
              apply scan_result_ok_here; right; reflexivity]).
    destruct (String.eqb _ _); [| apply IH].
    repeat (apply try__outcome;
            [intros ? _
            | intros e He; apply getitem_raises in He; subst e;
              apply scan_result_ok_here; right; reflexivity]).
    eapply scan_result_ok_step; [| apply IH].
    intros x. apply dict_set_keys.
Qed.

Lemma scan_new_ok (lines rest : list string) :
  forall sc, scan_result_ok sc (scan_new lines rest sc).
Proof.
  induction rest as [| line rest IH]; intros sc; cbn [scan_new].
  - apply scan_result_ok_here. left. reflexivity.
  - destruct (contains "[NEW]" line); [| apply IH].
    apply try__outcome;
      [intros l3 _
      | intros e He; apply getitem_raises in He; subst e;
        apply scan_result_ok_here; right; reflexivity].
    destruct (negb _).
    + apply try__outcome;
        [intros l4 _
        | intros e He; apply getitem_raises in He; subst e;
          apply scan_result_ok_here; right; reflexivity].
      eapply scan_result_ok_step; [| apply IH].
      intros x. apply dict_set_keys.
    + pose proof (scan_chg_ok lines line sc) as [Ho Hk].
      destruct (scan_chg lines line sc) as [sc1 [| e]]; simpl in *.
      * eapply scan_result_ok_step; [exact Hk | apply IH].
      * split; [| exact Hk]. simpl.
        destruct Ho as [Ho | Ho]; [discriminate | right; exact Ho].
Qed.

Lemma scan_new_no_new_line (lines rest : list string) (sc : dict) :
  Forall (fun line => contains "[NEW]" line = false) rest ->
  scan_new lines rest sc = (sc, Return).
Proof.
  induction 1 as [| line rest Hline _ IH]; cbn [scan_new].
  - reflexivity.
  - rewrite Hline. exact IH.
Qed.

(** X11. A period of a second or more, a readable [scan.txt] without any
    [[NEW]] line (or without lines at all) and nothing scanned before:
    the vendor model stores the period, asks the main loop to quit and
    starts no timer. *)
Theorem set_publication_without_devices_quits (r : ModelRef) (self : Model)
    (mv : MyVendorFields) (period : Z) (ths : list (Timer TimerId))
    (g : Globals) (lines : list string) :
  1000 <= period ->
  scan_txt g = Some lines ->
  Forall (fun line => contains "[NEW]" line = false) lines ->
  scanned g = [] ->
  MyVendor_set_publication r self mv period ths g
  = (set_pub_period period self, ths, mainloop_quit g, Return).
Proof.
  intros Hp Hscan Hlines Hsc. unfold MyVendor_set_publication.
  destruct (Z.eqb_spec period 0); [lia |].
  destruct (Z.ltb_spec period 1000); [lia |].
  rewrite Hscan. destruct lines as [| line lines]; [reflexivity |].
  rewrite (scan_new_no_new_line _ _ _ Hlines), Hsc.
  destruct g; simpl in *; subst; reflexivity.
Qed.

Lemma set_publication_without_devices_quits_witness :
  MyVendor_set_publication (0%nat, 0%nat) sample_model
    (mkMyVendorFields (StateInt 0) ModTimer___init__ ModTimer___init__)
    2000 [] (initial_globals (Some ["[CHG] Device AA:BB -70."]))
  = (set_pub_period 2000 sample_model, [],
     mainloop_quit (initial_globals (Some ["[CHG] Device AA:BB -70."])),
     Return).
Proof.
  apply (set_publication_without_devices_quits (0%nat, 0%nat) sample_model
           _ 2000 [] _ ["[CHG] Device AA:BB -70."]).
  - lia.
  - reflexivity.
  - repeat constructor.
  - reflexivity.
Defined.

(** X12. [MyVendor.set_publication] never removes a device from
    [scanned]: every key present before the call is present after it,
    whatever the period, the scan file and the outcome - a device that
    has left [scan.txt] stays in what is published. *)
Theorem set_publication_keeps_scanned_keys (r : ModelRef) (self : Model)
    (mv : MyVendorFields) (period : Z) (ths : list (Timer TimerId))
    (g : Globals) (x : string) :
  In x (dict_keys (scanned g)) ->
  In x (dict_keys
          (scanned
             (snd (fst (MyVendor_set_publication r self mv period ths g))))).
Proof.
  intros Hin. unfold MyVendor_set_publication.
  destruct (period =? 0).
  { destruct (cancel (pub_timer mv) ths); exact Hin. }
  destruct (period <? 1000); [exact Hin |].
  destruct (scan_txt g) as [[| line lines] |]; cbv beta iota zeta;
    try exact Hin.
  pose proof (scan_new_ok (line :: lines) (line :: lines) (scanned g))
    as [_ Hkeys].
  destruct (scan_new (line :: lines) (line :: lines) (scanned g))
    as [sc [| e]]; cbv beta iota zeta; simpl in Hkeys.
  - destruct sc; [exact (Hkeys x Hin) |].
    destruct (start _ _ _ _ _). exact (Hkeys x Hin).
  - exact (Hkeys x Hin).
Qed.

Lemma set_publication_keeps_scanned_keys_witness :
  In "kitchen"
    (dict_keys
       (scanned
          (snd (fst (MyVendor_set_publication (0%nat, 0%nat) armed_model
                       (mkMyVendorFields (StateBytes [("kitchen", "-60")])
                          armed_pub_timer ModTimer___init__)
                       3000 (threads armed_world)
                       (set_scanned [("kitchen", "-60")]
                          (initial_globals
                             (Some ["[NEW] Device CC:DD -40 hall."]))))))))
  /\ dict_keys
       (scanned
          (snd (fst (MyVendor_set_publication (0%nat, 0%nat) armed_model
                       (mkMyVendorFields (StateBytes [("kitchen", "-60")])
                          armed_pub_timer ModTimer___init__)
                       3000 (threads armed_world)
                       (set_scanned [("kitchen", "-60")]
                          (initial_globals
                             (Some ["[NEW] Device CC:DD -40 hall."])))))))
     = ["kitchen"; "hall"].
Proof.
  split; [| reflexivity].
  apply set_publication_keeps_scanned_keys. simpl. tauto.
Defined.

(** X13. When [MyVendor.set_publication] raises, the period was at least
    1000 and is already stored, while the schedulers, the vendor state
    and the timers are untouched and the main loop is not asked to quit.
    If [scan.txt] could not be read the globals are unchanged as well; if
    it was read, the exception is the [IndexError] of a scan line with
    too few fields. *)
Theorem set_publication_failure (r : ModelRef) (self : Model)
    (mv : MyVendorFields) (period : Z) (ths : list (Timer TimerId))
    (g : Globals) (m1 : Model) (ths1 : list (Timer TimerId))
    (g1 : Globals) (e : exn) :
  MyVendor_set_publication r self mv period ths g = (m1, ths1, g1, Raised e) ->
  1000 <= period
  /\ m1 = set_pub_period period self
  /\ ths1 = ths
  /\ loop_quit g1 = loop_quit g
  /\ (scan_txt g = None -> g1 = g)
  /\ (forall lines, scan_txt g = Some lines -> e = IndexError).
Proof.
  unfold MyVendor_set_publication. intros Heq.
  destruct (Z.eqb_spec period 0).
  { destruct (cancel (pub_timer mv) ths); discriminate. }
  destruct (Z.ltb_spec period 1000); [discriminate |].
  split; [lia |].
  destruct (scan_txt g) as [[| line lines] |] eqn:Hscan.
  - discriminate.
  - pose proof (scan_new_ok (line :: lines) (line :: lines) (scanned g))
      as [Ho _].
    destruct (scan_new (line :: lines) (line :: lines) (scanned g))
      as [sc [| e']]; simpl in Ho.
    + destruct sc; [discriminate |].
      destruct (start _ _ _ _ _); discriminate.
    + injection Heq as <- <- <- <-.
      destruct Ho as [Ho | Ho]; [discriminate |]. injection Ho as ->.
      repeat split; intros; discriminate.
  - injection Heq as <- <- <- <-. repeat split. intros; discriminate.
Qed.

Lemma set_publication_failure_witness :
  1000 <= 2000
  /\ set_pub_period 2000 sample_model = set_pub_period 2000 sample_model
  /\ @nil (Timer TimerId) = []
  /\ loop_quit (set_scanned [] (initial_globals (Some ["[NEW] x"])))
     = loop_quit (initial_globals (Some ["[NEW] x"]))
  /\ (scan_txt (initial_globals (Some ["[NEW] x"])) = None ->
      set_scanned [] (initial_globals (Some ["[NEW] x"]))
      = initial_globals (Some ["[NEW] x"]))
  /\ (forall lines,
        scan_txt (initial_globals (Some ["[NEW] x"])) = Some lines ->
        IndexError = IndexError).
Proof.
  exact (set_publication_failure (0%nat, 0%nat) sample_model
           (mkMyVendorFields (StateInt 0) ModTimer___init__ ModTimer___init__)
           2000 [] (initial_globals (Some ["[NEW] x"]))
           (set_pub_period 2000 sample_model) []
           (set_scanned [] (initial_globals (Some ["[NEW] x"])))
           IndexError eq_refl).
Defined.


Lemma print_subscriptions_outcome (subscriptions : list Subscription) :
  (print_subscriptions subscriptions = Return
   /\ Forall printable_subscription subscriptions)
  \/ (print_subscriptions subscriptions = Raised ValueError
      /\ ~ Forall printable_subscription subscriptions).
Proof.
  induction subscriptions as [| [a | label] rest IH]; simpl.
  - left. split; [reflexivity | constructor].
  - destruct IH as [[Hr Hall] | [Hr Hnot]].
    + left. split; [exact Hr | constructor; [exact I | exact Hall]].
    + right. split; [exact Hr |]. intros H. inversion H; subst. auto.
  - destruct (Nat.eqb_spec (length label) 16) as [E | E].
    + destruct IH as [[Hr Hall] | [Hr Hnot]].
      * left. split; [exact Hr | constructor; [exact E | exact Hall]].
      * right. split; [exact Hr |]. intros H. inversion H; subst. auto.
    + right. split; [reflexivity |]. intros H. inversion H; subst. auto.
Qed.


(** Bindings are stored although the scan file is missing. *)
Example set_config_stores_bindings_before_failing :
  set_config (0%nat, 0%nat) sample_model (sample_config 2000) []
    (initial_globals None)
  = (set_pub_period 2000 (set_bindings [0] sample_model), [],
     initial_globals None, Raised FileNotFoundError).
Proof. reflexivity. Qed.

(** X15. Subscriptions come last in [set_config]: a configuration whose
    subscription list holds a label that is not 16 bytes long raises
    [ValueError] only after bindings and publication period have taken
    effect, timer included; with printable subscriptions the key makes
    no difference at all. *)
Theorem set_config_subscriptions_last (r : ModelRef) (self : Model)
    (config : Config) (subs : list Subscription)
    (ths : list (Timer TimerId)) (g : Globals) :
  Subscriptions config = Some subs ->
  set_config r self config ths g
  = match set_config r self
            (mkConfig (Bindings config) (PublicationPeriod config) None)
            ths g with
    | (m1, ths1, g1, Return) =>
        (m1, ths1, g1,
         if forallb printable subs
         then Return else Raised ValueError)
    | failed => failed
    end.
Proof.
  intros Hsubs. unfold set_config. rewrite Hsubs. cbn [Bindings
    PublicationPeriod Subscriptions].
  assert (Hp : print_subscriptions subs
               = if forallb printable subs then Return
                 else Raised ValueError).
  { clear. induction subs as [| [a | label] rest IH]; simpl.
    - reflexivity.
    - exact IH.
    - destruct (length label =? 16)%nat; [exact IH | reflexivity]. }
  destruct (PublicationPeriod config) as [period |].
  - destruct (set_publication _ _ _ _ _) as [[[m t] g1] [| e]];
      [rewrite Hp |]; reflexivity.
  - rewrite Hp. reflexivity.
Qed.

Lemma set_config_subscriptions_last_witness :
  set_config (0%nat, 0%nat) sample_model
    (mkConfig (Some [0]) (Some 2000) (Some [SubLabel [1; 2; 3]])) []
    (glob sample_world)
  = match set_config (0%nat, 0%nat) sample_model
            (mkConfig (Some [0]) (Some 2000) None) [] (glob sample_world) with
    | (m1, ths1, g1, Return) =>
        (m1, ths1, g1,
         if forallb printable [SubLabel [1; 2; 3]]
         then Return else Raised ValueError)
    | failed => failed
    end.
Proof.
  exact (set_config_subscriptions_last (0%nat, 0%nat) sample_model
           (mkConfig (Some [0]) (Some 2000) (Some [SubLabel [1; 2; 3]]))
           [SubLabel [1; 2; 3]] [] (glob sample_world) eq_refl).
Defined.

(** The timer is waiting although the configuration was refused. *)
Example bad_label_arms_timer_and_raises :
  let r := set_config (0%nat, 0%nat) sample_model
             (mkConfig (Some [0]) (Some 2000) (Some [SubLabel [1; 2; 3]])) []
             (glob sample_world) in
  snd r = Raised ValueError /\ armed (snd (fst (fst r))) = [armed_thread].
Proof. split; reflexivity. Qed.

(** ** [update_model_config]: lookup by model id *)

Lemma update_model_config_loop_first_match (el_pos : nat) (ms : list Model) :
  forall (pos : nat) (id : Z) (config : Config)
         (ths : list (Timer TimerId)) (g : Globals),
    (Forall (fun m => get_id m <> id) ms
     /\ update_model_config_loop el_pos pos ms id config ths g
        = (ms, ths, g, Return))
    \/ (exists k m,
           ms !! k = Some m /\ get_id m = id
           /\ (forall j m', (j < k)%nat -> ms !! j = Some m' ->
                            get_id m' <> id)
           /\ update_model_config_loop el_pos pos ms id config ths g
              = let '(m1, ths1, g1, o) :=
                  set_config (el_pos, (pos + k)%nat) m config ths g in
                (<[k:=m1]> ms, ths1, g1, o)).
Proof.
  induction ms as [| model rest IH]; intros pos id config ths g.
  - left. split; [constructor | reflexivity].
  - cbn [update_model_config_loop].
    destruct (Z.eqb_spec id (get_id model)) as [E | E].
    + right. exists 0%nat, model. rewrite Nat.add_0_r.
      split; [reflexivity |]. split; [congruence |].
      split; [intros; lia |].
      destruct (set_config _ _ _ _ _) as [[[m1 t1] g1] o]. reflexivity.
    + destruct (IH (S pos) id config ths g)
        as [[Hall Heq] | (k & m & Hk & Hid & Hfirst & Heq)].
      * left. split; [constructor; [congruence | exact Hall] |].
        rewrite Heq. reflexivity.
      * right. exists (S k), m. rewrite Nat.add_succ_r.
        split; [exact Hk |]. split; [exact Hid |]. split.
        -- intros j m' Hj Hl. destruct j as [| j].
           ++ simpl in Hl. injection Hl as <-. congruence.
           ++ apply (Hfirst j m'); [lia | exact Hl].
        -- rewrite Heq. simpl.
           destruct (set_config _ _ _ _ _) as [[[m1 t1] g1] o]. reflexivity.
Qed.

(** X16. [update_model_config] goes by the model id alone, whatever the
    vendor: when no model of the element has the id, nothing at all
    changes and nothing is raised; otherwise the first model with the id
    gets [set_config] and every other model - a later one with the same
    id included - is left as it is. *)
Theorem update_model_config_first_match (el_pos : nat) (self : Element)
    (id : Z) (config : Config) (ths : list (Timer TimerId)) (g : Globals) :
  (Forall (fun m => get_id m <> id) (models self)
   /\ update_model_config el_pos self id config ths g = (self, ths, g, Return))
  \/ (exists k m,
         models self !! k = Some m /\ get_id m = id
         /\ (forall j m', (j < k)%nat -> models self !! j = Some m' ->
                          get_id m' <> id)
         /\ update_model_config el_pos self id config ths g
            = let '(m1, ths1, g1, o) :=
                set_config (el_pos, k) m config ths g in
              (set_models (<[k:=m1]> (models self)) self, ths1, g1, o)).
Proof.
  unfold update_model_config.
  destruct (update_model_config_loop_first_match el_pos (models self) 0 id
              config ths g)
    as [[Hall Heq] | (k & m & Hk & Hid & Hfirst & Heq)].
  - left. split; [exact Hall |]. rewrite Heq, set_models_same. reflexivity.
  - right. exists k, m.
    split; [exact Hk |]. split; [exact Hid |]. split; [exact Hfirst |].
    rewrite Heq. simpl.
    destruct (set_config _ _ _ _ _) as [[[m1 t1] g1] o]. reflexivity.
Qed.

(** Two models with one id on an element: only the first is configured. *)
Example same_id_second_model_never_configured :
  let el := add_model (Model___init__ 1)
              (add_model (MyVendor___init__ 1) (Element___init__ 0)) in
  map pub_period
    (models (fst (fst (fst (update_model_config 0 el 1 (sample_config 500) []
                              (initial_globals None))))))
  = [500; 0].
Proof. reflexivity. Qed.

(** ** Ticks *)

Lemma armed_alter_finish (ths : list (Timer TimerId)) :
  forall (i : nat) (th : Timer TimerId),
    ths !! i = Some th -> status th = Waiting ->
    S (length (armed (alter Timer_finish i ths))) = length (armed ths).
Proof.
  induction ths as [| t ths IH]; intros i th Hl Hw.
  - discriminate.
  - destruct i as [| i].
    + simpl in Hl. injection Hl as ->.
      unfold armed. cbn. unfold is_waiting at 2. rewrite Hw. reflexivity.
    + simpl in Hl. specialize (IH i th Hl Hw).
      unfold armed in *. cbn. destruct (is_waiting t); simpl; lia.
Qed.

(** X17. What one tick does to the books.  When the timer at position
    [i] is waiting and its scheduler exists, [Timer.run] either returns -
    then exactly one publication was sent and the number of waiting
    timers is the same as before (the finished one is replaced by one new
    one) - or raises [TypeError] or [AttributeError] - then nothing was
    published and one waiting timer less is left. *)
Theorem Timer_run_accounting (i : nat) (w : World) (th : Timer TimerId)
    (q : Q) (mt : ModTimer Callback) :
  threads w !! i = Some th ->
  status th = Waiting ->
  interval th = Some q ->
  timer_at (target th) (elements w) = Some mt ->
  match Timer_run i w with
  | (w1, Return) =>
      length (armed (threads w1)) = length (armed (threads w))
      /\ length (published (glob w1)) = S (length (published (glob w)))
  | (w1, Raised e) =>
      S (length (armed (threads w1))) = length (armed (threads w))
      /\ published (glob w1) = published (glob w)
      /\ (e = TypeError \/ e = AttributeError)
  end.
Proof.
  intros Hl Hw Hq Hat. unfold Timer_run. rewrite Hl, Hw, Hq, Hat.
  pose proof (armed_alter_finish _ _ _ Hl Hw) as Hfin.
  unfold _timeout_cb.
  destruct (func mt) as [[r] |]; [| cbn; auto].
  assert (Hcall :
            (exists x, run_callback (elements w) (publish_of r) (glob w)
                       = (set_published (published (glob w) ++ [x]) (glob w),
                          Return))
            \/ (exists e, run_callback (elements w) (publish_of r) (glob w)
                          = (glob w, Raised e)
                          /\ (e = TypeError \/ e = AttributeError))).
  { unfold run_callback, publish, send_publication.
    destruct (model_at r (elements w)) as [m |]; [| right; eauto].
    destruct (my_vendor m) as [mv |]; [| right; eauto].
    destruct (state mv); [right; eauto |].
    destruct (node (glob w)); [left; eauto | right; eauto]. }
  destruct Hcall as [[x ->] | (e & -> & He)].
  - unfold _schedule_timer. cbv beta iota zeta.
    cbn [threads glob published set_published].
    rewrite alter_app_l by (apply lookup_lt_Some in Hl; exact Hl).
    rewrite armed_app, !length_app.
    cbn [armed List.filter is_waiting status length].
    split; lia.
  - cbn. auto.
Qed.

Lemma Timer_run_accounting_witness :
  S (length (armed (threads (fst (Timer_run 0 armed_world)))))
  = length (armed (threads armed_world))
  /\ published (glob (fst (Timer_run 0 armed_world)))
     = published (glob armed_world)
  /\ (AttributeError = TypeError \/ AttributeError = AttributeError).
Proof.
  exact (Timer_run_accounting 0 armed_world armed_thread (Qmake 2000 1000)
           armed_pub_timer eq_refl eq_refl eq_refl eq_refl).
Defined.

(** ** Element indices and paths *)

Lemma unpack_b_range (b : Byte.byte) : -128 <= unpack_b b <= 127.
Proof. destruct b; vm_compute; split; discriminate. Qed.

(** X18. The index byte of an attach entry is read as a signed char, so
    it lies between -128 and 127.  An element registered under any other
    index cannot be named by an entry: if all registered elements are
    such, every attach completion with at least one entry raises
    [AttributeError]. *)
Theorem attach_cannot_address_large_index (node_path : string)
    (b : Byte.byte) (mods : list (Z * Config))
    (rest : list (Byte.byte * list (Z * Config))) (w : World) :
  Forall (fun e => get_index e < -128 \/ 127 < get_index e) (elements w) ->
  -128 <= unpack_b b <= 127
  /\ snd (attach_app_cb node_path ((b, mods) :: rest) w)
     = Raised AttributeError.
Proof.
  intros Hall. pose proof (unpack_b_range b) as Hr. split; [exact Hr |].
  assert (Hnone : get_element (elements w) (unpack_b b) = None).
  { apply get_element_from_none.
    eapply Forall_impl; [exact Hall |]. simpl. intros e He. lia. }
  unfold attach_app_cb. cbn [attach_app_cb_loop set_glob elements].
  rewrite Hnone. reflexivity.
Qed.

Lemma attach_cannot_address_large_index_witness :
  -128 <= unpack_b Byte.xc8 <= 127
  /\ snd (attach_app_cb "/org/bluez/mesh/node0"
            [(Byte.xc8, [(1, sample_config 2000)])]
            (add_element
               (add_model (MyVendor___init__ 1) (Element___init__ 200))
               (mkWorld [] [] (initial_globals None))))
     = Raised AttributeError.
Proof.
  apply (attach_cannot_address_large_index "/org/bluez/mesh/node0" Byte.xc8
           [(1, sample_config 2000)] []
           (add_element
              (add_model (MyVendor___init__ 1) (Element___init__ 200))
              (mkWorld [] [] (initial_globals None)))).
  constructor; [right; reflexivity | constructor].
Defined.




(** ** [attach_app_cb] and the other globals *)

Lemma attach_app_cb_loop_field {A : Type} (f : Globals -> A)
    (h : A -> Globals -> Globals)
    (els : list (Byte.byte * list (Z * Config))) (w : World) :
  (forall a g, f (h a g) = a) ->
  (forall g, h (f g) g = g) ->
  (forall a g, scan_txt (h a g) = scan_txt g) ->
  (forall a g, scanned (h a g) = scanned g) ->
  (forall a g, h a (mainloop_quit g) = mainloop_quit (h a g)) ->
  (forall a sc g, h a (set_scanned sc g) = set_scanned sc (h a g)) ->
  f (glob (fst (attach_app_cb_loop els w))) = f (glob w).
Proof.
  intros Hget Hsame H1 H2 H3 H4.
  pose proof (attach_app_cb_loop_frame (h (f (glob w))) (H1 _) (H2 _) (H3 _)
                (H4 _) els w) as Hframe.
  rewrite Hsame, set_glob_same in Hframe.
  rewrite Hframe. simpl. apply Hget.
Qed.

(** X20. Whatever the entries and however they end, [attach_app_cb]
    leaves [node] and [node_mgr] bound to the new node path, and never
    reads or changes [token], [have_token], the error flag or
    [mesh_net]: it attaches equally with and without a token. *)
Theorem attach_app_cb_globals (node_path : string)
    (dict_array : list (Byte.byte * list (Z * Config))) (w : World) :
  node (glob (fst (attach_app_cb node_path dict_array w))) = Some node_path
  /\ node_mgr (glob (fst (attach_app_cb node_path dict_array w)))
     = Some node_path
  /\ token (glob (fst (attach_app_cb node_path dict_array w)))
     = token (glob w)
  /\ have_token (glob (fst (attach_app_cb node_path dict_array w)))
     = have_token (glob w)
  /\ input_error (glob (fst (attach_app_cb node_path dict_array w)))
     = input_error (glob w)
  /\ mesh_net (glob (fst (attach_app_cb node_path dict_array w)))
     = mesh_net (glob w).
Proof.
  unfold attach_app_cb.
  repeat split.
  - rewrite (attach_app_cb_loop_field node set_node); try reflexivity.
    intros []; reflexivity.
  - rewrite (attach_app_cb_loop_field node_mgr set_node_mgr);
      try reflexivity.
    intros []; reflexivity.
  - rewrite (attach_app_cb_loop_field token set_token_field);
      try reflexivity.
    intros []; reflexivity.
  - rewrite (attach_app_cb_loop_field have_token set_have_token);
      try reflexivity.
    intros []; reflexivity.
  - rewrite (attach_app_cb_loop_field input_error set_input_error);
      try reflexivity.
    intros []; reflexivity.
  - rewrite (attach_app_cb_loop_field mesh_net set_mesh_net);
      try reflexivity.
    intros []; reflexivity.
Qed.

(** X21. Configuration pushed with the attach completion and
    configuration pushed later are the same thing: for an entry naming a
    registered element and one model, the attach loop does exactly what
    [UpdateModelConfiguration] does on that element. *)
Theorem attach_entry_is_update (b : Byte.byte) (id : Z) (config : Config)
    (w : World) (pos : nat) (element : Element) :
  get_element (elements w) (unpack_b b) = Some (pos, element) ->
  attach_app_cb_loop [(b, [(id, config)])] w
  = UpdateModelConfiguration pos id config w.
Proof.
  intros Hget.
  assert (Hl : elements w !! pos = Some element).
  { unfold get_element in Hget.
    apply get_element_from_some in Hget as (k & -> & Hk & _). exact Hk. }
  unfold UpdateModelConfiguration. cbn [attach_app_cb_loop set_model_config].
  rewrite Hget, Hl.
  destruct (update_model_config _ _ _ _ _ _) as [[[e1 t1] g1] [| e]];
    reflexivity.
Qed.

Lemma attach_entry_is_update_witness :
  attach_app_cb_loop [(Byte.x00, [(1, sample_config 2000)])] sample_world
  = UpdateModelConfiguration 0 1 (sample_config 2000) sample_world.
Proof.
  exact (attach_entry_is_update Byte.x00 1 (sample_config 2000) sample_world
           0%nat
           (add_model (MyVendor___init__ 0x0001) (Element___init__ 0x00))
           eq_refl).
Defined.

(** ** [unwrap] *)

Lemma DBusValue_nested_ind (P : DBusValue -> Prop) :
  (forall b, P (DBoolean b)) ->
  (forall n, P (DInteger n)) ->
  (forall x, P (DByte x)) ->
  (forall s, P (DString s)) ->
  (forall items, Forall P items -> P (DSequence items)) ->
  (forall items, Forall (fun kv => P (fst kv) /\ P (snd kv)) items ->
                 P (DMapping items)) ->
  (forall t, P (DOther t)) ->
  forall item, P item.
Proof.
  intros Hb Hn Hx Hs Hseq Hmap Ho.
  fix IH 1. intros [b | n | x | s | items | items | t].
  - apply Hb.
  - apply Hn.
  - apply Hx.
  - apply Hs.
  - apply Hseq. revert items. fix IHl 1. intros [| a items].
    + constructor.
    + constructor; [apply IH | apply IHl].
  - apply Hmap. revert items. fix IHl 1. intros [| [k v] items].
    + constructor.
    + constructor; [split; apply IH | apply IHl].
  - apply Ho.
Qed.

Lemma py_dict_hashable (pairs : list (PyValue * PyValue)) :
  forall acc,
    if forallb (fun kv => hashable (fst kv)) pairs
    then exists d, py_dict pairs acc = Ok d
    else py_dict pairs acc = Raise TypeError.
Proof.
  induction pairs as [| [k v] rest IH]; intros acc; simpl.
  - eauto.
  - destruct (hashable k); simpl; [apply IH | reflexivity].
Qed.

Lemma unwrap_scalar_hashable (x : DBusValue) :
  scalar x = true -> exists k, unwrap x = Ok k /\ hashable k = true.
Proof. destruct x; try discriminate; simpl; eauto. Qed.

(** X22. [unwrap] succeeds exactly on the values all of whose parts it
    handles; on every other value - one holding, at any depth, an object
    of a type it does not test for, or a dict key that unwraps to a
    list - it raises [TypeError].  It never hands an unhandled object
    back: the final [return item] is not reached.  A sequence unwraps to
    a list of the same length. *)
Theorem unwrap_total_on_supported (item : DBusValue) :
  (if supported item then exists v, unwrap item = Ok v
   else unwrap item = Raise TypeError)
  /\ (forall items v, item = DSequence items -> unwrap item = Ok v ->
                      exists vs, v = PyList vs /\ length vs = length items).
Proof.
  split.
  - induction item as [b | n | x | s | items IH | items IH | t]
      using DBusValue_nested_ind; simpl; eauto.
    + assert (Hc : if forallb supported items
                   then exists vs, comprehension unwrap items = Ok vs
                   else comprehension unwrap items = Raise TypeError).
      { induction IH as [| a items Ha _ IHl]; simpl; [eauto |].
        destruct (supported a); simpl.
        - destruct Ha as [v ->].
          destruct (forallb supported items).
          + destruct IHl as [vs ->]. eauto.
          + rewrite IHl. reflexivity.
        - rewrite Ha. reflexivity. }
      destruct (forallb supported items).
      * destruct Hc as [vs ->]. eauto.
      * rewrite Hc. reflexivity.
    + set (f := fun kv : DBusValue * DBusValue =>
                  let (x, y) := kv in
                  match unwrap x with
                  | Ok k => match unwrap y with
                            | Ok v => Ok (k, v)
                            | Raise e => Raise e
                            end
                  | Raise e => Raise e
                  end).
      set (ok := fun kv : DBusValue * DBusValue =>
                   let (x, y) := kv in scalar x && supported y).
      assert (Hc : if forallb ok items
                   then exists kvs,
                          comprehension f items = Ok kvs
                          /\ forallb (fun kv => hashable (fst kv)) kvs = true
                   else comprehension f items = Raise TypeError
                        \/ exists kvs,
                             comprehension f items = Ok kvs
                             /\ forallb (fun kv => hashable (fst kv)) kvs
                                = false).
      { induction IH as [| [x y] items [Hx Hy] _ IHl]; simpl; [eauto |].
        simpl in Hx, Hy.
        destruct (scalar x) eqn:Hsc; simpl.
        - destruct (unwrap_scalar_hashable x Hsc) as (k & Hk & Hh).
          rewrite Hk. destruct (supported y); simpl.
          + destruct Hy as [v ->].
            destruct (forallb ok items).
            * destruct IHl as (kvs & -> & Hall). exists ((k, v) :: kvs).
              simpl. rewrite Hh, Hall. split; reflexivity.
            * destruct IHl as [-> | (kvs & -> & Hall)]; [left; reflexivity |].
              right. exists ((k, v) :: kvs). simpl. rewrite Hall, andb_false_r.
              split; reflexivity.
          + rewrite Hy. left. reflexivity.
        - destruct x; try discriminate; simpl.
          + (* a sequence as key *)
            destruct (supported (DSequence items0)); simpl in Hx.
            * destruct Hx as [k Hk]. rewrite Hk.
              simpl in Hk.
              destruct (comprehension unwrap items0) as [vs |];
                [| discriminate]. injection Hk as <-.
              destruct (supported y).
              -- destruct Hy as [v ->].
                 destruct (comprehension f items) as [kvs |] eqn:Hrest.
                 ++ right. exists ((PyList vs, v) :: kvs). split; reflexivity.
                 ++ destruct (forallb ok items).
                    ** destruct IHl as (kvs & Hc & _). discriminate.
                    ** destruct IHl as [Hc | (kvs & Hc & _)];
                         [| discriminate].
                       injection Hc as ->. left. reflexivity.
              -- rewrite Hy. left. reflexivity.
            * rewrite Hx. left. reflexivity.
          + (* a mapping as key *)
            destruct (supported (DMapping items0)); simpl in Hx.
            * destruct Hx as [k Hk]. rewrite Hk.
              assert (Hd : exists d, k = PyDict d).
              { simpl in Hk.
                destruct (comprehension _ items0) as [kvs0 |];
                  [| discriminate].
                destruct (py_dict kvs0 []) as [d |]; [| discriminate].
                injection Hk as <-. eauto. }
              destruct Hd as [d ->].
              destruct (supported y).
              -- destruct Hy as [v ->].
                 destruct (comprehension f items) as [kvs |] eqn:Hrest.
                 ++ right. exists ((PyDict d, v) :: kvs). split; reflexivity.
                 ++ destruct (forallb ok items).
                    ** destruct IHl as (kvs & Hc & _). discriminate.
                    ** destruct IHl as [Hc | (kvs & Hc & _)];
                         [| discriminate].
                       injection Hc as ->. left. reflexivity.
              -- rewrite Hy. left. reflexivity.
            * rewrite Hx. left. reflexivity.
          + left. reflexivity. }
      destruct (forallb ok items).
      * destruct Hc as (kvs & -> & Hall).
        pose proof (py_dict_hashable kvs []) as Hd. rewrite Hall in Hd.
        destruct Hd as [d ->]. eauto.
      * destruct Hc as [-> | (kvs & -> & Hall)]; [reflexivity |].
        pose proof (py_dict_hashable kvs []) as Hd. rewrite Hall in Hd.
        rewrite Hd. reflexivity.
  - intros items v -> Hv. simpl in Hv.
    destruct (comprehension unwrap items) as [vs |] eqn:Hc; [| discriminate].
    injection Hv as <-. exists vs. split; [reflexivity |].
    revert vs Hc. induction items as [| a items IHl]; intros vs Hc.
    + injection Hc as <-. reflexivity.
    + simpl in Hc. destruct (unwrap a); [| discriminate].
      destruct (comprehension unwrap items) as [vs' |]; [| discriminate].
      injection Hc as <-. simpl. rewrite (IHl vs' eq_refl). reflexivity.
Qed.

(** An attach payload as the daemon sends it unwraps; the same payload
    with a floating-point value in a configuration raises. *)
Example unwrap_attach_payload :
  unwrap (DSequence
            [DSequence
               [DByte Byte.x00;
                DSequence
                  [DSequence
                     [DInteger 1;
                      DMapping [(DString "Bindings", DSequence [DInteger 0]);
                                (DString "PublicationPeriod", DInteger 2000);
                                (DString "Subscriptions", DSequence [])]]]]])
  = Ok (PyList
          [PyList
             [PyBytes [0%N];
              PyList
                [PyList
                   [PyInt 1;
                    PyDict [(PyStr "Bindings", PyList [PyInt 0]);
                            (PyStr "PublicationPeriod", PyInt 2000);
                            (PyStr "Subscriptions", PyList [])]]]]])
  /\ unwrap (DSequence
               [DSequence
                  [DByte Byte.x00;
                   DSequence
                     [DSequence
                        [DInteger 1;
                         DMapping [(DString "Extra", DOther "dbus.Double")]]]]])
     = Raise TypeError.
Proof. split; reflexivity. Qed.
